(** * celery-exporter: the event-to-metric engine of [src/exporter.py]

    A shallow embedding of [Exporter], [get_exception_class] and
    [QueueLengthMonitor], followed by the properties of the specification
    that concern them.

    Conventions of the embedding:
    - a Python [str] is a [string]; each character is the code point
      (0..255) of one Python character;
    - [None]-able attributes are [option]s;
    - timestamps and durations are binary64 floats ([PrimFloat.float]), as
      [time.time()] produces them;
    - counter and gauge values are integers in [Z]: the exporter only adds
      0 or 1 to a counter and sets gauges to Python [int]s;
    - a method that mutates [self] is a function in a state-and-exception
      monad: the state reached is returned also when the call raises,
      since Python does not roll back the updates made before a [raise]. *)

From Stdlib Require Import ZArith Ascii Floats.PrimFloat.
From stdpp Require Import gmap strings list fin_maps relations pretty.

Open Scope Z_scope.
Set Warnings "-clear-no-such-hyp".

(** ** Python exceptions *)

(** Subclasses of [Exception] the modelled code can meet. *)
Inductive exn :=
| TypeError
| ValueError
| AttributeError
| IndexError
| UnicodeDecodeError
| JSONDecodeError
| ConnectionError
| OtherError (msg : string).

(** What a [raise] can carry: [except Exception] catches [Exc _] only;
    [KeyboardInterrupt] and [SystemExit] derive from [BaseException]. *)
Inductive raised :=
| Exc (e : exn)
| KeyboardInterrupt
| SystemExit.

Inductive result (A : Type) :=
| Ok (a : A)
| Raise (e : exn).
Arguments Ok {A} a.
Arguments Raise {A} e.

(** ** State-and-exception monad *)

Definition M (S A : Type) : Type := S -> S * result A.

Definition ret {S A} (a : A) : M S A := fun s => (s, Ok a).

Definition raise {S A} (e : exn) : M S A := fun s => (s, Raise e).

Definition bind {S A B} (c : M S A) (k : A -> M S B) : M S B :=
  fun s =>
    match c s with
    | (s', Ok a) => k a s'
    | (s', Raise e) => (s', Raise e)
    end.

Definition gets {S A} (f : S -> A) : M S A := fun s => (s, Ok (f s)).

Definition modify {S} (f : S -> S) : M S unit := fun s => (f s, Ok tt).

Definition lift {S A} (r : result A) : M S A := fun s => (s, r).

Declare Scope py_scope.
Delimit Scope py_scope with py.
Notation "'do' x <- c1 ; c2" := (bind c1 (fun x => c2))
  (at level 10, x name, c1 at level 100, c2 at level 200) : py_scope.
Notation "c1 >> c2" := (bind c1 (fun _ => c2))
  (at level 100, c2 at level 200, right associativity) : py_scope.

(** [for x in xs: body(x)]: the first [raise] leaves the loop. *)
Fixpoint for_each {S A} (xs : list A) (body : A -> M S unit) : M S unit :=
  match xs with
  | [] => ret tt
  | x :: rest => (body x >> for_each rest body)%py
  end.

(** ** Logging (loguru) *)

Inductive level := DEBUG | WARNING | ERROR.

(** One record per [logger] call: its severity and its message template. *)
Definition log_record : Type := level * string.

(** ** [get_exception_class] *)

(** [\w] of a [str] pattern: [[a-zA-Z0-9_]] and the characters Unicode
    classifies as alphanumeric; below 256 those are the ones listed. *)
Definition is_word (c : ascii) : bool :=
  let n := Z.of_N (N_of_ascii c) in
  ((48 <=? n) && (n <=? 57)) || ((65 <=? n) && (n <=? 90)) || (n =? 95)
  || ((97 <=? n) && (n <=? 122))
  || (n =? 170) || ((178 <=? n) && (n <=? 179)) || (n =? 181)
  || ((185 <=? n) && (n <=? 186)) || ((188 <=? n) && (n <=? 190))
  || ((192 <=? n) && (n <=? 214)) || ((216 <=? n) && (n <=? 246))
  || ((248 <=? n) && (n <=? 255)).

(** [exception_pattern = re.compile(r"^(\w+)\(")], matched at the start of
    the subject.  [\w+] is greedy: it first tries to take one more word
    character, and gives characters back only when the rest of the pattern
    fails.  The result is group 1 of the match, [None] without a match. *)
Fixpoint exception_pattern_match (s : string) : option string :=
  match s with
  | EmptyString => None
  | String c rest =>
      if is_word c then
        match exception_pattern_match rest with
        | Some g => Some (String c g)
        | None =>
            match rest with
            | String "("%char _ => Some (String c EmptyString)
            | _ => None
            end
        end
      else None
  end.

Definition sentinel : string := "__PrometheusExporterFailedToParseExceptionName".

(** [re.Pattern.match] accepts a [str] only: [None] raises [TypeError]. *)
Definition get_exception_class (exception_name : option string) : result string :=
  match exception_name with
  | None => Raise TypeError
  | Some s =>
      match exception_pattern_match s with
      | None => Ok sentinel
      | Some g => Ok g
      end
  end.

(** ** Records of celery's event state *)

(** The attributes of [celery.events.state.Task] the exporter reads.  Each
    is [None] until an event has set it. *)
Module Task.
Record t := {
  name : option string;
  hostname : option string;
  state : string;
  exception : option string;
  sent : option float;
  runtime : option float
}.
End Task.

Module Worker.
Record t := {
  active : option Z;
  alive : bool
}.
End Worker.

(** An event is a [dict]; these are the keys the exporter subscripts. *)
Module Event.
Record t := {
  type : string;
  uuid : string;
  hostname : string
}.
End Event.

(** What [State.event(event)] hands back as [[0][0]]: the record it merged
    the event into. *)
Inductive merged :=
| MergedTask (task : Task.t)
| MergedWorker (worker : Worker.t)
| MergedNothing.

(** [celery.events.state.State] belongs to celery, not to this repository:
    the exporter is verified against its interface.
    [state_event st ev] is [st.event(ev)], which merges in place;
    [tasks_get st uuid] is [st.tasks.get(uuid)]. *)
Class CeleryState (State : Type) := {
  state_event : State -> Event.t -> State * merged;
  tasks_get : State -> string -> option Task.t
}.

(** ** Python values and dictionaries *)

(** [str(v)] for a value that is [None] or a [str]. *)
Definition py_str (v : option string) : string :=
  match v with
  | None => "None"
  | Some s => s
  end.

(** Truth value of a float: zero of either sign is false, NaN is true. *)
Definition float_truthy (x : float) : bool := negb (PrimFloat.eqb x 0%float).

(** A [dict] with [str] keys, in insertion order. *)
Definition dict (V : Type) : Type := list (string * V).

Fixpoint dict_get {V} (k : string) (d : dict V) : option V :=
  match d with
  | [] => None
  | (k', v) :: rest => if decide (k = k') then Some v else dict_get k rest
  end.

(** [d[k] = v]: overwrites in place, or appends a new key. *)
Fixpoint dict_set {V} (k : string) (v : V) (d : dict V) : dict V :=
  match d with
  | [] => [(k, v)]
  | (k', v') :: rest =>
      if decide (k = k') then (k, v) :: rest else (k', v') :: dict_set k v rest
  end.

(** ** prometheus_client metrics *)

(** What the constructor of a metric family fixes. *)
Record Metric := {
  metric_name : string;
  labelnames : list string
}.

(** The children of a family, by label values. *)
Abbreviation series V := (gmap (list string) V).

(** [family.labels] called with keyword arguments: the keywords must be
    exactly the label names; the child is keyed by the [str] of each
    value, in the order of the label names. *)
Definition labels_kw (m : Metric) (labelkwargs : dict (option string))
  : result (list string) :=
  if bool_decide (labelkwargs.*1 ≡ₚ labelnames m) then
    Ok (map (fun l => py_str (default None (dict_get l labelkwargs))) (labelnames m))
  else Raise ValueError.

(** [family.labels] called with positional values: one per label name. *)
Definition labels_pos (m : Metric) (labelvalues : list (option string))
  : result (list string) :=
  if bool_decide (length labelvalues = length (labelnames m)) then
    Ok (map py_str labelvalues)
  else Raise ValueError.

(** Value of a counter or gauge child; a child that was never touched is
    not exposed and counts as 0. *)
Definition value_of `{Countable K} (s : gmap K Z) (child : K) : Z :=
  default 0 (s !! child).

(** [labels] creates the child, at 0, the first time it is asked for. *)
Definition child_of `{Countable K} (child : K) (s : gmap K Z) : gmap K Z :=
  <[child := value_of s child]> s.

(** [child.inc(amount)] of a counter: a negative amount is refused. *)
Definition counter_inc `{Countable K} (child : K) (amount : Z) (s : gmap K Z)
  : result (gmap K Z) :=
  if amount <? 0 then Raise ValueError
  else Ok (<[child := value_of s child + amount]> s).

(** [child.set(value)] of a gauge. *)
Definition gauge_set (labelvalues : list string) (value : Z) (s : series Z)
  : series Z :=
  <[labelvalues := value]> s.

(** [child.observe(amount)] of a histogram; the model keeps the observed
    amounts, latest last.  Adding [None] to the running sum raises. *)
Definition histogram_observe (labelvalues : list string) (amount : option float)
    (s : series (list float)) : result (series (list float)) :=
  match amount with
  | None => Raise TypeError
  | Some x => Ok (<[labelvalues := default [] (s !! labelvalues) ++ [x]]> s)
  end.

(** [Exporter.state_counters], as [__init__] builds it. *)
Definition state_counters : dict Metric := [
  ("task-sent", {| metric_name := "celery_task_sent"; labelnames := ["name"; "hostname"] |});
  ("task-received", {| metric_name := "celery_task_received"; labelnames := ["name"; "hostname"] |});
  ("task-started", {| metric_name := "celery_task_started"; labelnames := ["name"; "hostname"] |});
  ("task-succeeded", {| metric_name := "celery_task_succeeded"; labelnames := ["name"; "hostname"] |});
  ("task-failed", {| metric_name := "celery_task_failed"; labelnames := ["name"; "hostname"; "exception"] |});
  ("task-rejected", {| metric_name := "celery_task_rejected"; labelnames := ["name"; "hostname"] |});
  ("task-revoked", {| metric_name := "celery_task_revoked"; labelnames := ["name"; "hostname"] |});
  ("task-retried", {| metric_name := "celery_task_retried"; labelnames := ["name"; "hostname"] |})
].

Definition celery_worker_up_metric : Metric :=
  {| metric_name := "celery_worker_up"; labelnames := ["hostname"] |}.
Definition worker_tasks_active_metric : Metric :=
  {| metric_name := "celery_worker_tasks_active"; labelnames := ["hostname"] |}.
Definition celery_task_runtime_metric : Metric :=
  {| metric_name := "celery_task_runtime"; labelnames := ["name"; "hostname"] |}.
Definition celery_task_queuetime_metric : Metric :=
  {| metric_name := "celery_task_queuetime"; labelnames := ["name"; "hostname"] |}.
Definition queue_length_metric : Metric :=
  {| metric_name := "celery_queue_length"; labelnames := ["queue"] |}.

(** ** [class Exporter] *)

Module Exporter.
Section WithState.
Context {State : Type} `{!CeleryState State}.

(** The mutable part of an [Exporter]: celery's state, the children of
    each metric family, and what was logged.  The children of
    [state_counters[key]] are kept under [(key, label values)]. *)
Record t := {
  state : State;
  state_counter_values : gmap (string * list string) Z;
  celery_worker_up : series Z;
  worker_tasks_active : series Z;
  celery_task_runtime : series (list float);
  celery_task_queuetime : series (list float);
  queue_length : series Z;
  log : list log_record
}.

Definition with_state (st : State) (e : t) : t :=
  {| state := st; state_counter_values := state_counter_values e;
     celery_worker_up := celery_worker_up e;
     worker_tasks_active := worker_tasks_active e;
     celery_task_runtime := celery_task_runtime e;
     celery_task_queuetime := celery_task_queuetime e;
     queue_length := queue_length e; log := log e |}.

Definition with_state_counter_values (v : gmap (string * list string) Z) (e : t) : t :=
  {| state := state e; state_counter_values := v;
     celery_worker_up := celery_worker_up e;
     worker_tasks_active := worker_tasks_active e;
     celery_task_runtime := celery_task_runtime e;
     celery_task_queuetime := celery_task_queuetime e;
     queue_length := queue_length e; log := log e |}.

Definition with_celery_worker_up (v : series Z) (e : t) : t :=
  {| state := state e; state_counter_values := state_counter_values e;
     celery_worker_up := v;
     worker_tasks_active := worker_tasks_active e;
     celery_task_runtime := celery_task_runtime e;
     celery_task_queuetime := celery_task_queuetime e;
     queue_length := queue_length e; log := log e |}.

Definition with_worker_tasks_active (v : series Z) (e : t) : t :=
  {| state := state e; state_counter_values := state_counter_values e;
     celery_worker_up := celery_worker_up e;
     worker_tasks_active := v;
     celery_task_runtime := celery_task_runtime e;
     celery_task_queuetime := celery_task_queuetime e;
     queue_length := queue_length e; log := log e |}.

Definition with_celery_task_runtime (v : series (list float)) (e : t) : t :=
  {| state := state e; state_counter_values := state_counter_values e;
     celery_worker_up := celery_worker_up e;
     worker_tasks_active := worker_tasks_active e;
     celery_task_runtime := v;
     celery_task_queuetime := celery_task_queuetime e;
     queue_length := queue_length e; log := log e |}.

Definition with_celery_task_queuetime (v : series (list float)) (e : t) : t :=
  {| state := state e; state_counter_values := state_counter_values e;
     celery_worker_up := celery_worker_up e;
     worker_tasks_active := worker_tasks_active e;
     celery_task_runtime := celery_task_runtime e;
     celery_task_queuetime := v;
     queue_length := queue_length e; log := log e |}.

Definition with_queue_length (v : series Z) (e : t) : t :=
  {| state := state e; state_counter_values := state_counter_values e;
     celery_worker_up := celery_worker_up e;
     worker_tasks_active := worker_tasks_active e;
     celery_task_runtime := celery_task_runtime e;
     celery_task_queuetime := celery_task_queuetime e;
     queue_length := v; log := log e |}.

Definition with_log (v : list log_record) (e : t) : t :=
  {| state := state e; state_counter_values := state_counter_values e;
     celery_worker_up := celery_worker_up e;
     worker_tasks_active := worker_tasks_active e;
     celery_task_runtime := celery_task_runtime e;
     celery_task_queuetime := celery_task_queuetime e;
     queue_length := queue_length e; log := v |}.

(** [logger.debug], [logger.warning], ... *)
Definition logger (lvl : level) (message : string) : M t unit :=
  modify (fun e => with_log (log e ++ [(lvl, message)]) e).

(** [self.state.event(event)] *)
Definition self_state_event (event : Event.t) : M t merged :=
  fun e =>
    let '(st, obj) := state_event (state e) event in
    (with_state st e, Ok obj).

(** [counter.labels(...).inc(amount)] for [counter = self.state_counters[counter_name]],
    with [_labels] as the keyword arguments. *)
Definition state_counter_inc (counter_name : string) (counter : Metric)
    (_labels : dict (option string)) (amount : Z) : M t unit :=
  (do labelvalues <- lift (labels_kw counter _labels);
   modify (fun e => with_state_counter_values
             (child_of (counter_name, labelvalues) (state_counter_values e)) e) >>
   do v <- (fun e => (e, counter_inc (counter_name, labelvalues) amount
                           (state_counter_values e)));
   modify (with_state_counter_values v))%py.

(** [gauge.labels(hostname=hostname).set(value)] on one of the two
    worker gauges. *)
Definition celery_worker_up_set (hostname : string) (value : Z) : M t unit :=
  (do labelvalues <- lift (labels_kw celery_worker_up_metric [("hostname", Some hostname)]);
   modify (fun e => with_celery_worker_up
             (gauge_set labelvalues value (celery_worker_up e)) e))%py.

Definition worker_tasks_active_set (hostname : string) (value : Z) : M t unit :=
  (do labelvalues <- lift (labels_kw worker_tasks_active_metric [("hostname", Some hostname)]);
   modify (fun e => with_worker_tasks_active
             (gauge_set labelvalues value (worker_tasks_active e)) e))%py.

(** [histogram.labels(...).observe(amount)], with [labels] as the keyword
    arguments. *)
Definition celery_task_queuetime_observe (labels : dict (option string))
    (amount : option float) : M t unit :=
  (do labelvalues <- lift (labels_kw celery_task_queuetime_metric labels);
   do v <- (fun e => (e, histogram_observe labelvalues amount (celery_task_queuetime e)));
   modify (with_celery_task_queuetime v))%py.

Definition celery_task_runtime_observe (labels : dict (option string))
    (amount : option float) : M t unit :=
  (do labelvalues <- lift (labels_kw celery_task_runtime_metric labels);
   do v <- (fun e => (e, histogram_observe labelvalues amount (celery_task_runtime e)));
   modify (with_celery_task_runtime v))%py.

(** The body of [for counter_name, counter in self.state_counters.items()]. *)
Definition track_task_event_counter (event : Event.t) (task : Task.t)
    (labels : dict (option string)) (item : string * Metric) : M t unit :=
  let '(counter_name, counter) := item in
  let _labels := labels in
  (do _labels <-
     (if decide (counter_name = "task-failed") then
        if decide (counter_name = Event.type event) then
          do cls <- lift (get_exception_class (Task.exception task));
          ret (dict_set "exception" (Some cls) _labels)
        else ret (dict_set "exception" (Some "") _labels)
      else ret _labels);
   (if decide (counter_name = Event.type event) then
      state_counter_inc counter_name counter _labels 1
    else
      state_counter_inc counter_name counter _labels 0) >>
   logger DEBUG "Incremented metric='{}' labels='{}'")%py.

(** [track_task_event(self, event)]; [now] is what [time.time()] returns
    if it is called. *)
Definition track_task_event (event : Event.t) (now : float) : M t unit :=
  (do _ <- self_state_event event;
   do found <- gets (fun e => tasks_get (state e) (Event.uuid event));
   match found with
   | None => raise AttributeError
   | Some task =>
       logger DEBUG "Received event='{}' for task='{}'" >>
       (match dict_get (Event.type event) state_counters with
        | None => logger WARNING "No counter matches task state='{}'"
        | Some _ => ret tt
        end) >>
       let labels := [("name", Task.name task); ("hostname", Task.hostname task)] in
       for_each state_counters (track_task_event_counter event task labels) >>
       (if decide (Event.type event = "task-started") then
          match Task.sent task with
          | Some sent =>
              if float_truthy sent then
                let queue_time := PrimFloat.sub now sent in
                celery_task_queuetime_observe labels (Some queue_time) >>
                logger DEBUG "Observed metric='{}' labels='{}': {}s"
              else ret tt
          | None => ret tt
          end
        else ret tt) >>
       (if decide (Event.type event = "task-succeeded") then
          celery_task_runtime_observe labels (Task.runtime task) >>
          logger DEBUG "Observed metric='{}' labels='{}': {}s"
        else ret tt)
   end)%py.

(** [track_worker_status(self, event, is_online)] *)
Definition track_worker_status (event : Event.t) (is_online : bool) : M t unit :=
  let value := if is_online then 1 else 0 in
  let hostname := Event.hostname event in
  (logger DEBUG "Received event='{}' for hostname='{}'" >>
   celery_worker_up_set hostname value)%py.

(** [track_worker_heartbeat(self, event)] *)
Definition track_worker_heartbeat (event : Event.t) : M t unit :=
  (logger DEBUG "Received event='{}' for worker='{}'" >>
   do obj <- self_state_event event;
   match obj with
   | MergedNothing => raise TypeError
   | MergedTask _ => raise AttributeError
   | MergedWorker worker_state =>
       let active := default 0 (Worker.active worker_state) in
       let up := if Worker.alive worker_state then 1 else 0 in
       celery_worker_up_set (Event.hostname event) up >>
       worker_tasks_active_set (Event.hostname event) active >>
       logger DEBUG "Updated gauge='{}' value='{}'" >>
       logger DEBUG "Updated gauge='{}' value='{}'"
   end)%py.

(** The [handlers] dictionary of [run]; a handler gets the event and the
    clock reading. *)
Definition handlers : dict (Event.t -> float -> M t unit) :=
  fold_left (fun hs key => dict_set key track_task_event hs)
    (state_counters.*1)
    [("worker-heartbeat", fun event _ => track_worker_heartbeat event);
     ("worker-online", fun event _ => track_worker_status event true);
     ("worker-offline", fun event _ => track_worker_status event false)].

(** How celery's [Receiver] uses [handlers] for each event it receives:
    the handler registered for the type, else the one registered for
    ["*"], else nothing. *)
Definition process (event : Event.t) (now : float) : M t unit :=
  match dict_get (Event.type event) handlers with
  | Some handler => handler event now
  | None =>
      match dict_get "*" handlers with
      | Some handler => handler event now
      | None => ret tt
      end
  end.

(** *** The consumption loop of [run] *)

(** How a blocking call of the receive phase stops, seen from [run]. *)
Inductive capture_end :=
| Returns
| Raises (r : raised).

(** One receive phase: the events it delivers to the handlers, each with
    the clock reading at its handling, and how the phase stops once they
    are handled. *)
Record delivery := {
  events : list (Event.t * float);
  ending : capture_end
}.

(** [recv.capture(limit=None, timeout=None, wakeup=True)]: an exception
    of a handler leaves [capture] at once. *)
Fixpoint capture (evs : list (Event.t * float)) (stop : capture_end) (e : t)
  : t * capture_end :=
  match evs with
  | [] => (e, stop)
  | (event, now) :: rest =>
      match process event now e with
      | (e', Ok _) => capture rest stop e'
      | (e', Raise x) => (e', Raises (Exc x))
      end
  end.

(** What [run] does that is seen from outside the exporter. *)
Inductive action :=
| Receive
| Sleep (seconds : Z).

(** How the loop is left: by an exception that propagates out of [run],
    or not at all within the deliveries given (it is blocked in the
    next receive phase). *)
Inductive run_end :=
| Propagates (r : raised)
| Blocked.

(** The [while True] loop of [run], from the state [e] with [trace]
    already done.  [time.sleep] refuses a negative duration with
    [ValueError], outside the [try]. *)
Fixpoint run (retry_interval : Z) (deliveries : list delivery) (e : t)
    (trace : list action) : t * list action * run_end :=
  match deliveries with
  | [] => (e, trace ++ [Receive], Blocked)
  | d :: rest =>
      let trace := trace ++ [Receive] in
      let sleep_and_loop e :=
        if retry_interval <? 0 then (e, trace, Propagates (Exc ValueError))
        else run retry_interval rest e (trace ++ [Sleep retry_interval]) in
      match capture (events d) (ending d) e with
      | (e, Raises KeyboardInterrupt) => (e, trace, Propagates KeyboardInterrupt)
      | (e, Raises SystemExit) => (e, trace, Propagates SystemExit)
      | (e, Raises (Exc ex)) =>
          let e :=
            with_log (log e ++ [(ERROR, "celery-exporter exception '{}', retrying in {} seconds.")]) e in
          if retry_interval =? 0 then (e, trace, Propagates (Exc ex))
          else sleep_and_loop e
      | (e, Returns) => sleep_and_loop e
      end
  end.

End WithState.
Arguments t State : clear implicits.
End Exporter.

(** ** [class QueueLengthMonitor] *)

Module QueueLengthMonitor.

(** One value of the [unacked] hash, as
    [json.loads(task.decode('utf-8'))] handles it: decoding raises, or
    yields the array kombu wrote, here with the strings its fields decode
    to (only the last one, the queue, is read). *)
Inductive unacked_value :=
| Malformed (e : exn)
| Fields (data : list string).

(** What the pipeline reads from Redis in one round trip. *)
Record Redis := {
  llen : string -> Z;
  hvals_unacked : list unacked_value
}.

(** The broker during one cycle: connecting or executing the pipeline
    raises, or the pipeline is answered. *)
Inductive broker :=
| Unreachable (e : exn)
| Reachable (r : Redis).

Record t := {
  gauge : series Z;
  queues : list string;
  interval : Z;
  running : bool;
  log : list log_record;
  slept : list Z
}.

Definition with_gauge (v : series Z) (m : t) : t :=
  {| gauge := v; queues := queues m; interval := interval m;
     running := running m; log := log m; slept := slept m |}.

Definition with_running (v : bool) (m : t) : t :=
  {| gauge := gauge m; queues := queues m; interval := interval m;
     running := v; log := log m; slept := slept m |}.

Definition with_log (v : list log_record) (m : t) : t :=
  {| gauge := gauge m; queues := queues m; interval := interval m;
     running := running m; log := v; slept := slept m |}.

Definition with_slept (v : list Z) (m : t) : t :=
  {| gauge := gauge m; queues := queues m; interval := interval m;
     running := running m; log := log m; slept := v |}.

(** [time.sleep(seconds)] *)
Definition sleep (seconds : Z) : M t unit :=
  if seconds <? 0 then raise ValueError
  else modify (fun m => with_slept (slept m ++ [seconds]) m).

(** [lengths[queue] += n] on a [collections.Counter]: a missing key
    counts as 0. *)
Definition counter_add (queue : string) (n : Z) (lengths : dict Z) : dict Z :=
  dict_set queue (default 0 (dict_get queue lengths) + n) lengths.

(** [data = json.loads(task.decode('utf-8')); queue = data[-1]] *)
Definition final_field (task : unacked_value) : result string :=
  match task with
  | Malformed e => Raise e
  | Fields data =>
      match last data with
      | Some queue => Ok queue
      | None => Raise IndexError
      end
  end.

(** [for task in unacked: ... lengths[queue] += 1] *)
Fixpoint tally_unacked (unacked : list unacked_value) (lengths : dict Z)
  : result (dict Z) :=
  match unacked with
  | [] => Ok lengths
  | task :: rest =>
      match final_field task with
      | Raise e => Raise e
      | Ok queue => tally_unacked rest (counter_add queue 1 lengths)
      end
  end.

(** [for llen, queue in zip(result, self.queues): lengths[queue] += llen] *)
Definition add_llens (result : list Z) (qs : list string) (lengths : dict Z)
  : dict Z :=
  fold_left (fun acc '(llen, queue) => counter_add queue llen acc)
    (zip result qs) lengths.

(** [self.gauge.labels(queue).set(length)] *)
Definition publish (item : string * Z) : M t unit :=
  let '(queue, length) := item in
  (do labelvalues <- lift (labels_pos queue_length_metric [Some queue]);
   modify (fun m => with_gauge (gauge_set labelvalues length (gauge m)) m))%py.

(** The body of the [try] in [run]. *)
Definition cycle (b : broker) : M t unit :=
  (do qs <- gets queues;
   match b with
   | Unreachable e => raise e
   | Reachable r =>
       let result := map (llen r) qs in
       let unacked := hvals_unacked r in
       do lengths <- lift (tally_unacked unacked []);
       let lengths := add_llens result qs lengths in
       for_each lengths publish >>
       do seconds <- gets interval;
       sleep seconds
   end)%py.

(** The [except Exception] handler of [run]. *)
Definition on_exception (m : t) : t :=
  let m :=
    with_log (log m ++ [(ERROR, "Uncaught exception, preventing thread from crashing: {}")]) m in
  with_slept (slept m ++ [1]) m.

(** [stop(self)] *)
Definition stop (m : t) : t := with_running false m.

(** What happens to the thread, in order: another thread calls [stop],
    or the loop reaches its condition with the broker behaving as [b]
    during the cycle that follows. *)
Inductive tick :=
| Stop
| Cycle (b : broker).

(** [run(self)]: the [while self.running] loop. *)
Fixpoint run (ticks : list tick) (m : t) : t :=
  match ticks with
  | [] => m
  | Stop :: rest => run rest (stop m)
  | Cycle b :: rest =>
      if running m then
        match cycle b m with
        | (m', Ok _) => run rest m'
        | (m', Raise _) => run rest (on_exception m')
        end
      else m
  end.

End QueueLengthMonitor.

(** ** [Exporter.run]: what precedes the consumption loop *)

Module Startup.

(** A value of the [transport_options] dictionary: an [int] or a [str]. *)
Inductive option_value :=
| IntValue (n : Z)
| StrValue (s : string).

(** The text before the first ["="] of [s], and the text after it when
    there is one. *)
Fixpoint partition_eq (s : string) : string * option string :=
  match s with
  | EmptyString => (EmptyString, None)
  | String c rest =>
      if Ascii.eqb c "="%char then (EmptyString, Some rest)
      else
        let '(before, after) := partition_eq rest in
        (String c before, after)
  end.

(** [s.split("=", 1)]: a list of one or two strings. *)
Definition split_eq (s : string) : list string :=
  match partition_eq s with
  | (before, None) => [before]
  | (before, Some after) => [before; after]
  end.

(** The characters [str.isnumeric] accepts, below 256: the decimal
    digits, the superscripts one, two and three, and the three vulgar
    fractions. *)
Definition is_numeric (c : ascii) : bool :=
  let n := Z.of_N (N_of_ascii c) in
  ((48 <=? n) && (n <=? 57)) || ((178 <=? n) && (n <=? 179)) || (n =? 185)
  || ((188 <=? n) && (n <=? 190)).

Fixpoint all_numeric (s : string) : bool :=
  match s with
  | EmptyString => true
  | String c rest => is_numeric c && all_numeric rest
  end.

(** [s.isnumeric()]: every character is numeric, and there is one. *)
Definition isnumeric (s : string) : bool :=
  match s with
  | EmptyString => false
  | String _ _ => all_numeric s
  end.

Definition is_decimal (c : ascii) : bool :=
  let n := Z.of_N (N_of_ascii c) in (48 <=? n) && (n <=? 57).

(** Base-ten reading of the digits of [s], after those already read into
    [acc]; a character that is no decimal digit is an invalid literal. *)
Fixpoint int_digits (acc : Z) (s : string) : result Z :=
  match s with
  | EmptyString => Ok acc
  | String c rest =>
      if is_decimal c then int_digits (10 * acc + (Z.of_N (N_of_ascii c) - 48)) rest
      else Raise ValueError
  end.

(** [int(value)] for a [value] that [isnumeric] accepted (no sign, blank or
    underscore can occur in it). *)
Definition int_of_numeric (value : string) : result Z :=
  match value with
  | EmptyString => Raise ValueError
  | String _ _ => int_digits 0 value
  end.

(** The body of [for transport_option in click_params["broker_transport_option"]];
    unpacking anything but two parts into [option, value] raises
    [ValueError]. *)
Definition set_transport_option (transport_option : option string)
    (transport_options : dict option_value) : result (dict option_value) :=
  match transport_option with
  | None => Ok transport_options
  | Some s =>
      match split_eq s with
      | [option; value] =>
          if isnumeric value then
            match int_of_numeric value with
            | Ok n => Ok (dict_set option (IntValue n) transport_options)
            | Raise e => Raise e
            end
          else Ok (dict_set option (StrValue value) transport_options)
      | _ => Raise ValueError
      end
  end.

(** The loop, from the dictionary built so far. *)
Fixpoint set_transport_options (broker_transport_option : list (option string))
    (transport_options : dict option_value) : result (dict option_value) :=
  match broker_transport_option with
  | [] => Ok transport_options
  | transport_option :: rest =>
      match set_transport_option transport_option transport_options with
      | Ok transport_options => set_transport_options rest transport_options
      | Raise e => Raise e
      end
  end.

(** What [run] stores in [app.conf["broker_transport_options"]]. *)
Definition broker_transport_options (broker_transport_option : list (option string))
  : result (dict option_value) :=
  set_transport_options broker_transport_option [].

(** [if click_params['queue_length_interval']: QueueLengthMonitor(...)]:
    the thread [run] starts, if any; [__init__] sets its [running] flag. *)
Definition queuelength_thread (queue_length_interval : option Z)
    (queue : list string) (gauge : series Z) : option QueueLengthMonitor.t :=
  match queue_length_interval with
  | None => None
  | Some interval =>
      if interval =? 0 then None
      else
        Some {| QueueLengthMonitor.gauge := gauge;
                QueueLengthMonitor.queues :=
                  match queue with
                  | [] => ["celery"]
                  | _ :: _ => queue
                  end;
                QueueLengthMonitor.interval := interval;
                QueueLengthMonitor.running := true;
                QueueLengthMonitor.log := [];
                QueueLengthMonitor.slept := [] |}
  end.

End Startup.

(** ** A table-backed stand-in for celery's [State]

    Used to run the handlers on concrete events: the task and worker
    records are looked up by uuid and host name; an event for an unknown
    task creates its record, and every task event stamps the host name of
    the event on the record. *)

Module TableState.

Record t := {
  tasks : gmap string Task.t;
  workers : gmap string Worker.t
}.

Definition new_task : Task.t :=
  {| Task.name := None; Task.hostname := None; Task.state := "PENDING";
     Task.exception := None; Task.sent := None; Task.runtime := None |}.

Definition new_worker : Worker.t :=
  {| Worker.active := None; Worker.alive := true |}.

Definition stamp (hostname : string) (task : Task.t) : Task.t :=
  {| Task.name := Task.name task; Task.hostname := Some hostname;
     Task.state := Task.state task; Task.exception := Task.exception task;
     Task.sent := Task.sent task; Task.runtime := Task.runtime task |}.

Definition is_worker_event (type : string) : bool :=
  bool_decide (type ∈ ["worker-heartbeat"; "worker-online"; "worker-offline"]).

Definition event (st : t) (ev : Event.t) : t * merged :=
  if is_worker_event (Event.type ev) then
    let worker := default new_worker (workers st !! Event.hostname ev) in
    ({| tasks := tasks st; workers := <[Event.hostname ev := worker]> (workers st) |},
     MergedWorker worker)
  else
    let task := stamp (Event.hostname ev) (default new_task (tasks st !! Event.uuid ev)) in
    ({| tasks := <[Event.uuid ev := task]> (tasks st); workers := workers st |},
     MergedTask task).

#[global] Instance celery_state : CeleryState t := {
  state_event := event;
  tasks_get st uuid := tasks st !! uuid
}.

(** An exporter that has seen nothing yet, over the given tables. *)
Definition fresh (st : t) : Exporter.t t :=
  {| Exporter.state := st;
     Exporter.state_counter_values := ∅;
     Exporter.celery_worker_up := ∅;
     Exporter.worker_tasks_active := ∅;
     Exporter.celery_task_runtime := ∅;
     Exporter.celery_task_queuetime := ∅;
     Exporter.queue_length := ∅;
     Exporter.log := [] |}.

End TableState.

(** ** Vocabulary of the statements *)

(** A non-empty run of word characters: what [\w+] can match. *)
Fixpoint all_word (s : string) : bool :=
  match s with
  | EmptyString => true
  | String c rest => is_word c && all_word rest
  end.

Definition is_identifier (s : string) : bool :=
  match s with
  | EmptyString => false
  | String _ _ => all_word s
  end.

(** [s] has the shape [identifier(...]. *)
Definition identifier_call (s : string) : Prop :=
  ∃ ident rest, is_identifier ident = true ∧ s = ident +:+ "(" +:+ rest.

(** [c] moves every state to an [R]-related one, whether it returns or
    raises. *)
Definition preserves {S A} (R : relation S) (c : M S A) : Prop :=
  ∀ s, R s (c s).1.

(** Value of the child of [state_counters[counter_name]] with the given
    label values. *)
Definition counter_value {State} (e : Exporter.t State) (counter_name : string)
    (labelvalues : list string) : Z :=
  value_of (Exporter.state_counter_values e) (counter_name, labelvalues).

(** The child exists, so it is part of what is exposed. *)
Definition counter_exposed {State} (e : Exporter.t State) (counter_name : string)
    (labelvalues : list string) : Prop :=
  is_Some (Exporter.state_counter_values e !! (counter_name, labelvalues)).

(** The label tuple of [counter_name] for an event of type [event_type]
    on [task]: name and host name, and for the task-failed counter the
    exception label, which is [cls] only when the event is a failure. *)
Definition touched_labels (event_type : string) (task : Task.t) (cls : string)
    (counter_name : string) : list string :=
  [py_str (Task.name task); py_str (Task.hostname task)] ++
  (if decide (counter_name = "task-failed") then
     [if decide (event_type = "task-failed") then cls else ""]
   else []).

(** What one pass of the loop over [state_counters] does to the exporter. *)
Definition bump {State} (event_type : string) (task : Task.t) (cls : string)
    (counter_name : string) (e : Exporter.t State) : Exporter.t State :=
  let child := (counter_name, touched_labels event_type task cls counter_name) in
  let values := Exporter.state_counter_values e in
  Exporter.with_log
    (Exporter.log e ++ [(DEBUG, "Incremented metric='{}' labels='{}'")])
    (Exporter.with_state_counter_values
       (<[child := value_of values child
                   + (if decide (counter_name = event_type) then 1 else 0)]> values) e).

(** No child of any counter loses value or disappears. *)
Definition counters_le {State} (e e' : Exporter.t State) : Prop :=
  ∀ child,
    value_of (Exporter.state_counter_values e) child
      ≤ value_of (Exporter.state_counter_values e') child
    ∧ (is_Some (Exporter.state_counter_values e !! child) →
       is_Some (Exporter.state_counter_values e' !! child)).

(** Every child of every counter keeps its value. *)
Definition counters_same {State} (e e' : Exporter.t State) : Prop :=
  ∀ child,
    value_of (Exporter.state_counter_values e) child
      = value_of (Exporter.state_counter_values e') child.

(** [s'] agrees with [s] on the part of the state that [f] reads. *)
Definition same_on {S B} (f : S → B) : relation S := λ s s', f s = f s'.

(** The whole loop over the counters named [counter_names]. *)
Definition bumps {State} (event_type : string) (task : Task.t) (cls : string)
    (counter_names : list string) (e : Exporter.t State) : Exporter.t State :=
  foldl (λ e counter_name, bump event_type task cls counter_name e) e counter_names.

(** What follows the loop over the counters in [track_task_event]. *)
Definition observations {State} (event : Event.t) (now : float) (task : Task.t)
  : M (Exporter.t State) unit :=
  let labels := [("name", Task.name task); ("hostname", Task.hostname task)] in
  ((if decide (Event.type event = "task-started") then
      match Task.sent task with
      | Some sent =>
          if float_truthy sent then
            let queue_time := PrimFloat.sub now sent in
            Exporter.celery_task_queuetime_observe labels (Some queue_time) >>
            Exporter.logger DEBUG "Observed metric='{}' labels='{}': {}s"
          else ret tt
      | None => ret tt
      end
    else ret tt) >>
   (if decide (Event.type event = "task-succeeded") then
      Exporter.celery_task_runtime_observe labels (Task.runtime task) >>
      Exporter.logger DEBUG "Observed metric='{}' labels='{}': {}s"
    else ret tt))%py.

(** The operations that can change the metrics of a running exporter:
    an event through the handler table, a handler called directly, the
    consumption loop over any deliveries, and the queue-length thread
    setting its gauge. *)
Inductive exporter_step {State} `{!CeleryState State}
  : relation (Exporter.t State) :=
| step_process event now e :
    exporter_step e (Exporter.process event now e).1
| step_track_task_event event now e :
    exporter_step e (Exporter.track_task_event event now e).1
| step_track_worker_status event is_online e :
    exporter_step e (Exporter.track_worker_status event is_online e).1
| step_track_worker_heartbeat event e :
    exporter_step e (Exporter.track_worker_heartbeat event e).1
| step_run retry_interval deliveries trace e :
    exporter_step e (Exporter.run retry_interval deliveries e trace).1.1
| step_queue_length gauge e :
    exporter_step e (Exporter.with_queue_length gauge e).



(** The exporter after the same event went [n] times through the handler
    table. *)
Definition process_times {State} `{!CeleryState State} (n : nat)
    (event : Event.t) (now : float) (e : Exporter.t State) : Exporter.t State :=
  Nat.iter n (λ e, (Exporter.process event now e).1) e.

(** The unacknowledged entry decodes and its final field is [queue]. *)
Definition names_queue (queue : string) (task : QueueLengthMonitor.unacked_value) : bool :=
  match QueueLengthMonitor.final_field task with
  | Ok q => bool_decide (q = queue)
  | Raise _ => false
  end.

(** Number of unacknowledged entries whose final field is [queue]. *)
Definition unacked_count (queue : string)
    (unacked : list QueueLengthMonitor.unacked_value) : Z :=
  Z.of_nat (length (List.filter (names_queue queue) unacked)).

(** Number of times [queue] is among the configured queues. *)
Definition configured_times (queue : string) (queues : list string) : Z :=
  Z.of_nat (length (List.filter (λ q, bool_decide (q = queue)) queues)).

(** The published depth of [queue]: the child of the gauge, if any. *)
Definition published (m : QueueLengthMonitor.t) (queue : string) : option Z :=
  QueueLengthMonitor.gauge m !! [queue].

Definition is_cycle (tick : QueueLengthMonitor.tick) : Prop :=
  match tick with
  | QueueLengthMonitor.Cycle _ => True
  | QueueLengthMonitor.Stop => False
  end.

(** ** Concrete inputs *)

Module Examples.

Definition failed_task : Task.t :=
  {| Task.name := Some "tasks.add"; Task.hostname := Some "worker1";
     Task.state := "FAILURE"; Task.exception := Some "ValueError('boom')";
     Task.sent := None; Task.runtime := None |}.

(** A task whose sent timestamp is the epoch itself. *)
Definition zero_sent_task : Task.t :=
  {| Task.name := Some "tasks.add"; Task.hostname := Some "worker1";
     Task.state := "STARTED"; Task.exception := None;
     Task.sent := Some 0%float; Task.runtime := None |}.

Definition sent_task : Task.t :=
  {| Task.name := Some "tasks.add"; Task.hostname := Some "worker1";
     Task.state := "STARTED"; Task.exception := None;
     Task.sent := Some 1700000000.25%float; Task.runtime := None |}.

Definition tables : TableState.t :=
  {| TableState.tasks :=
       <["t1" := failed_task]> (<["t2" := zero_sent_task]> (<["t3" := sent_task]> ∅));
     TableState.workers := ∅ |}.

Definition exporter : Exporter.t TableState.t := TableState.fresh tables.

Definition now : float := 1700000002.5%float.

Definition task_failed : Event.t :=
  {| Event.type := "task-failed"; Event.uuid := "t1"; Event.hostname := "worker1" |}.
Definition task_started_zero : Event.t :=
  {| Event.type := "task-started"; Event.uuid := "t2"; Event.hostname := "worker1" |}.
Definition task_started : Event.t :=
  {| Event.type := "task-started"; Event.uuid := "t3"; Event.hostname := "worker1" |}.
Definition worker_online : Event.t :=
  {| Event.type := "worker-online"; Event.uuid := ""; Event.hostname := "worker1" |}.

Definition redis : QueueLengthMonitor.Redis :=
  {| QueueLengthMonitor.llen := λ queue, if decide (queue = "a") then 3 else 0;
     QueueLengthMonitor.hvals_unacked :=
       [QueueLengthMonitor.Fields ["{}"; "celery"; "a"];
        QueueLengthMonitor.Fields ["{}"; "celery"; "a"];
        QueueLengthMonitor.Fields ["{}"; "celery"; "b"]] |}.

Definition monitor (queues : list string) : QueueLengthMonitor.t :=
  {| QueueLengthMonitor.gauge := ∅; QueueLengthMonitor.queues := queues;
     QueueLengthMonitor.interval := 30; QueueLengthMonitor.running := true;
     QueueLengthMonitor.log := []; QueueLengthMonitor.slept := [] |}.

Definition broker_down : Exporter.delivery :=
  {| Exporter.events := []; Exporter.ending := Exporter.Raises (Exc ConnectionError) |}.
Definition interrupted : Exporter.delivery :=
  {| Exporter.events := []; Exporter.ending := Exporter.Raises KeyboardInterrupt |}.

End Examples.

(** The gauges that worker events and the sampler write. *)
Definition gauges {State} (e : Exporter.t State) :=
  (Exporter.celery_worker_up e, Exporter.worker_tasks_active e,
   Exporter.queue_length e).

(** The counters and the histograms, which task events write. *)
Definition task_metrics {State} (e : Exporter.t State) :=
  (Exporter.state_counter_values e, Exporter.celery_task_runtime e,
   Exporter.celery_task_queuetime e).

(** The receive phase is not ended by a shutdown signal. *)
Definition no_shutdown (d : Exporter.delivery) : Prop :=
  Exporter.ending d ≠ Exporter.Raises KeyboardInterrupt
  ∧ Exporter.ending d ≠ Exporter.Raises SystemExit.


(** The character [c] occurs in [s]. *)
Fixpoint contains (c : ascii) (s : string) : bool :=
  match s with
  | EmptyString => false
  | String c' rest => Ascii.eqb c' c || contains c rest
  end.

(** The unacknowledged entry decodes to an array with a last field. *)
Definition decodes (task : QueueLengthMonitor.unacked_value) : Prop :=
  ∃ queue, QueueLengthMonitor.final_field task = Ok queue.

(** The broker makes the cycle fail before anything is published: it
    cannot be reached, or one of the unacknowledged entries does not
    decode. *)
Definition fails_early (b : QueueLengthMonitor.broker) : Prop :=
  match b with
  | QueueLengthMonitor.Unreachable _ => True
  | QueueLengthMonitor.Reachable r =>
      Exists (λ task, ¬ decodes task) (QueueLengthMonitor.hvals_unacked r)
  end.

(** Some character of [s] is numeric without being a decimal digit. *)
Fixpoint has_non_decimal (s : string) : bool :=
  match s with
  | EmptyString => false
  | String c rest => negb (Startup.is_decimal c) || has_non_decimal rest
  end.

(** ** More concrete inputs *)

Module MoreExamples.

Definition busy_worker : Worker.t :=
  {| Worker.active := Some 4; Worker.alive := true |}.

Definition succeeded_task : Task.t :=
  {| Task.name := Some "tasks.add"; Task.hostname := Some "worker1";
     Task.state := "SUCCESS"; Task.exception := None;
     Task.sent := None; Task.runtime := Some 0.5%float |}.

(** A task that failed, of which no exception string is known. *)
Definition silent_task : Task.t :=
  {| Task.name := Some "tasks.add"; Task.hostname := Some "worker1";
     Task.state := "FAILURE"; Task.exception := None;
     Task.sent := None; Task.runtime := None |}.

Definition tables : TableState.t :=
  {| TableState.tasks :=
       <["t1" := Examples.failed_task]>
         (<["t4" := succeeded_task]> (<["t5" := silent_task]> ∅));
     TableState.workers := <["worker1" := busy_worker]> ∅ |}.

Definition exporter : Exporter.t TableState.t := TableState.fresh tables.

Definition worker_heartbeat : Event.t :=
  {| Event.type := "worker-heartbeat"; Event.uuid := ""; Event.hostname := "worker1" |}.
Definition task_succeeded : Event.t :=
  {| Event.type := "task-succeeded"; Event.uuid := "t4"; Event.hostname := "worker1" |}.
Definition task_failed_silently : Event.t :=
  {| Event.type := "task-failed"; Event.uuid := "t5"; Event.hostname := "worker1" |}.

(** A state that keeps no record at all. *)
#[global] Instance forgetful_state : CeleryState unit := {
  state_event _ _ := (tt, MergedNothing);
  tasks_get _ _ := None
}.

Definition forgetful_exporter : Exporter.t unit :=
  {| Exporter.state := tt;
     Exporter.state_counter_values := ∅;
     Exporter.celery_worker_up := ∅;
     Exporter.worker_tasks_active := ∅;
     Exporter.celery_task_runtime := ∅;
     Exporter.celery_task_queuetime := ∅;
     Exporter.queue_length := ∅;
     Exporter.log := [] |}.


(** An unacknowledged value that is not JSON. *)
Definition redis_garbled : QueueLengthMonitor.Redis :=
  {| QueueLengthMonitor.llen := λ queue, if decide (queue = "a") then 3 else 0;
     QueueLengthMonitor.hvals_unacked :=
       [QueueLengthMonitor.Fields ["{}"; "celery"; "a"];
        QueueLengthMonitor.Malformed JSONDecodeError] |}.

Definition hasty_monitor : QueueLengthMonitor.t :=
  {| QueueLengthMonitor.gauge := ∅; QueueLengthMonitor.queues := ["a"];
     QueueLengthMonitor.interval := -5; QueueLengthMonitor.running := true;
     QueueLengthMonitor.log := []; QueueLengthMonitor.slept := [] |}.

End MoreExamples.

(** ** [get_exception_class]: properties *)

(** The pattern matches an identifier followed by a parenthesis, and the
    group is the identifier. *)
Lemma exception_pattern_match_complete ident rest :
  is_identifier ident = true →
  exception_pattern_match (ident +:+ "(" +:+ rest) = Some ident.
Proof.
  induction ident as [|c ident IH]; [discriminate|].
  intros Hw. simpl in Hw. apply andb_true_iff in Hw as [Hc Hrest].
  change (String c ident +:+ "(" +:+ rest)
    with (String c (ident +:+ "(" +:+ rest)).
  cbn [exception_pattern_match]. rewrite Hc.
  destruct ident as [|c' ident].
  - reflexivity.
  - by rewrite IH.
Qed.

(** Whatever the pattern matches is an identifier followed by a
    parenthesis. *)
Lemma exception_pattern_match_sound s g :
  exception_pattern_match s = Some g →
  is_identifier g = true ∧ ∃ rest, s = g +:+ "(" +:+ rest.
Proof.
  revert g. induction s as [|c s IH]; intros g; [discriminate|].
  cbn [exception_pattern_match].
  destruct (is_word c) eqn:Hc; [|discriminate].
  destruct (exception_pattern_match s) as [g'|] eqn:Hs.
  - intros [= <-]. destruct (IH g' eq_refl) as [Hid [rest ->]].
    split; [|by exists rest].
    destruct g'; [discriminate|]. simpl in *. by rewrite Hc.
  - destruct s as [|c' s]; [discriminate|].
    destruct (decide (c' = "("%char)) as [->|Hne].
    + intros [= <-]. split; [simpl; by rewrite Hc|by exists s].
    + intros Hg. exfalso.
      destruct c' as [[] [] [] [] [] [] [] []]; try discriminate Hg.
      by apply Hne.
Qed.

(** C2: for every string, [get_exception_class] returns rather than
    raises; it returns the leading identifier when the string starts with
    an identifier immediately followed by an opening parenthesis (so
    ["ValueError(...)"] gives ["ValueError"]), and the fixed sentinel for
    every other string, the empty one included. *)
Theorem get_exception_class_spec (s : string) :
  (∃ cls, get_exception_class (Some s) = Ok cls) ∧
  (∀ ident rest, is_identifier ident = true → s = ident +:+ "(" +:+ rest →
     get_exception_class (Some s) = Ok ident) ∧
  (¬ identifier_call s → get_exception_class (Some s) = Ok sentinel) ∧
  get_exception_class (Some "ValueError(...)") = Ok "ValueError" ∧
  get_exception_class (Some "") = Ok sentinel.
Proof.
  repeat split.
  - unfold get_exception_class. destruct (exception_pattern_match s); eauto.
  - intros ident rest Hid ->. unfold get_exception_class.
    by rewrite exception_pattern_match_complete.
  - intros Hno. unfold get_exception_class.
    destruct (exception_pattern_match s) as [g|] eqn:Hs; [|done].
    destruct (exception_pattern_match_sound _ _ Hs) as [Hid [rest ->]].
    exfalso. apply Hno. by exists g, rest.
Qed.

Lemma get_exception_class_spec_witness :
  get_exception_class (Some "KeyError('k')") = Ok "KeyError" ∧
  get_exception_class (Some "<MaybeEncodingError: x>") = Ok sentinel.
Proof.
  destruct (get_exception_class_spec "KeyError('k')") as (_ & Hid & _).
  destruct (get_exception_class_spec "<MaybeEncodingError: x>") as (_ & _ & Hno & _).
  split.
  - apply (Hid "KeyError" "'k')"); reflexivity.
  - apply Hno. intros (ident & rest & Hid' & Heq).
    destruct ident as [|c ident]; [discriminate|].
    injection Heq as <- _. discriminate.
Defined.

(** ** Computations: composition lemmas *)

Section Computations.
Context {S : Type} (R : relation S).

Lemma preserves_ret `{!Reflexive R} {A} (a : A) : preserves R (ret a).
Proof. intros s. simpl. reflexivity. Qed.

Lemma preserves_raise `{!Reflexive R} {A} (e : exn) : preserves R (@raise S A e).
Proof. intros s. simpl. reflexivity. Qed.

Lemma preserves_lift `{!Reflexive R} {A} (r : result A) : preserves R (lift r).
Proof. intros s. simpl. reflexivity. Qed.

Lemma preserves_gets `{!Reflexive R} {A} (f : S → A) : preserves R (gets f).
Proof. intros s. simpl. reflexivity. Qed.

Lemma preserves_modify (f : S → S) : (∀ s, R s (f s)) → preserves R (modify f).
Proof. intros H s. apply H. Qed.

Lemma preserves_bind `{!Transitive R} {A B} (c : M S A) (k : A → M S B) :
  preserves R c → (∀ a, preserves R (k a)) → preserves R (bind c k).
Proof.
  intros Hc Hk s. unfold bind. specialize (Hc s).
  destruct (c s) as [s' [a|e]]; simpl in *; [|done].
  etrans; [exact Hc|apply Hk].
Qed.

Lemma preserves_for_each `{!PreOrder R} {A} (xs : list A) (body : A → M S unit) :
  (∀ x, x ∈ xs → preserves R (body x)) → preserves R (for_each xs body).
Proof.
  induction xs as [|x xs IH]; intros Hbody; simpl.
  - apply preserves_ret; apply _.
  - apply preserves_bind; try apply _.
    + apply Hbody. by constructor.
    + intros _. apply IH. intros y Hy. apply Hbody. by constructor.
Qed.

End Computations.

(** ** [Exporter]: properties *)

Section ExporterFacts.
Context {State : Type} `{!CeleryState State}.
Implicit Types (e : Exporter.t State) (event : Event.t) (task : Task.t).
Implicit Types (now : float) (is_online : bool).

Lemma labels_kw_name_hostname m (n h : option string) :
  labelnames m = ["name"; "hostname"] →
  labels_kw m [("name", n); ("hostname", h)] = Ok [py_str n; py_str h].
Proof. intros Hm. unfold labels_kw. rewrite Hm. reflexivity. Qed.

Lemma labels_kw_name_hostname_exception m (n h x : option string) :
  labelnames m = ["name"; "hostname"; "exception"] →
  labels_kw m [("name", n); ("hostname", h); ("exception", x)]
  = Ok [py_str n; py_str h; py_str x].
Proof. intros Hm. unfold labels_kw. rewrite Hm. reflexivity. Qed.

Lemma state_counter_inc_spec counter_name counter _labels amount labelvalues e :
  labels_kw counter _labels = Ok labelvalues →
  0 ≤ amount →
  Exporter.state_counter_inc counter_name counter _labels amount e
  = (Exporter.with_state_counter_values
       (<[(counter_name, labelvalues) :=
            value_of (Exporter.state_counter_values e) (counter_name, labelvalues) + amount]>
          (Exporter.state_counter_values e)) e, Ok tt).
Proof.
  intros Hl Ha. unfold Exporter.state_counter_inc, bind, lift, modify.
  rewrite Hl. simpl. unfold counter_inc, child_of.
  destruct (Z.ltb_spec amount 0) as [?|_]; [lia|].
  simpl. unfold value_of at 1. rewrite lookup_insert_eq. simpl.
  rewrite insert_insert_eq. by destruct e.
Qed.

Lemma track_task_event_counter_plain event task cls counter_name counter e :
  counter_name ≠ "task-failed" →
  labelnames counter = ["name"; "hostname"] →
  Exporter.track_task_event_counter event task
    [("name", Task.name task); ("hostname", Task.hostname task)]
    (counter_name, counter) e
  = (bump (Event.type event) task cls counter_name e, Ok tt).
Proof.
  intros Hne Hnames.
  unfold Exporter.track_task_event_counter, bump, touched_labels.
  rewrite !decide_False by done.
  unfold bind at 1. unfold ret at 1. cbv beta iota.
  unfold bind.
  destruct (decide (counter_name = Event.type event));
    (erewrite state_counter_inc_spec;
       [|by apply labels_kw_name_hostname|lia]);
    reflexivity.
Qed.

Lemma track_task_event_counter_failed event task cls counter e :
  labelnames counter = ["name"; "hostname"; "exception"] →
  (Event.type event = "task-failed" →
   get_exception_class (Task.exception task) = Ok cls) →
  Exporter.track_task_event_counter event task
    [("name", Task.name task); ("hostname", Task.hostname task)]
    ("task-failed", counter) e
  = (bump (Event.type event) task cls "task-failed" e, Ok tt).
Proof.
  intros Hnames Hcls.
  unfold Exporter.track_task_event_counter, bump, touched_labels.
  rewrite (decide_True (P := "task-failed" = "task-failed")) by done.
  destruct (decide ("task-failed" = Event.type event)) as [Heq|Hne].
  - rewrite decide_True by done.
    unfold bind, lift. rewrite Hcls by done. unfold ret.
    cbn [dict_set]. rewrite !decide_False by done. rewrite decide_True by done.
    erewrite state_counter_inc_spec;
      [|by apply labels_kw_name_hostname_exception|lia].
    reflexivity.
  - rewrite (decide_False (P := Event.type event = "task-failed")) by done.
    unfold bind, ret.
    cbn [dict_set]. rewrite !decide_False by done. rewrite decide_True by done.
    erewrite state_counter_inc_spec;
      [|by apply labels_kw_name_hostname_exception|lia].
    reflexivity.
Qed.

Lemma track_task_event_counter_spec event task cls item e :
  item ∈ state_counters →
  (Event.type event = "task-failed" →
   get_exception_class (Task.exception task) = Ok cls) →
  Exporter.track_task_event_counter event task
    [("name", Task.name task); ("hostname", Task.hostname task)] item e
  = (bump (Event.type event) task cls item.1 e, Ok tt).
Proof.
  intros Hin Hcls. unfold state_counters in Hin.
  repeat (apply elem_of_cons in Hin as [->|Hin]);
    try (by apply elem_of_nil in Hin);
    first [by apply track_task_event_counter_plain
          |by apply track_task_event_counter_failed].
Qed.

Lemma for_each_state_counters event task cls e :
  (Event.type event = "task-failed" →
   get_exception_class (Task.exception task) = Ok cls) →
  for_each state_counters
    (Exporter.track_task_event_counter event task
       [("name", Task.name task); ("hostname", Task.hostname task)]) e
  = (bumps (Event.type event) task cls (state_counters.*1) e, Ok tt).
Proof.
  intros Hcls. unfold bumps.
  assert (Hsub : ∀ item, item ∈ state_counters → item ∈ state_counters) by done.
  revert Hsub e. generalize state_counters at 1 3 4.
  intros cs. induction cs as [|item cs IH]; intros Hsub e; [done|].
  cbn [for_each]. unfold bind.
  rewrite (track_task_event_counter_spec _ _ cls)
    by (done || apply Hsub; by constructor).
  rewrite IH by (intros ??; apply Hsub; by constructor). done.
Qed.

Lemma value_of_bump event_type task cls counter_name e child :
  value_of (Exporter.state_counter_values (bump event_type task cls counter_name e)) child
  = value_of (Exporter.state_counter_values e) child
    + (if decide (child = (counter_name, touched_labels event_type task cls counter_name)
                  ∧ counter_name = event_type) then 1 else 0).
Proof.
  unfold bump. cbn [Exporter.state_counter_values Exporter.with_log
    Exporter.with_state_counter_values].
  unfold value_of at 1. rewrite lookup_insert.
  repeat case_decide; subst; simpl; unfold value_of; try lia; naive_solver.
Qed.

Lemma exposed_bump event_type task cls counter_name e child :
  is_Some (Exporter.state_counter_values (bump event_type task cls counter_name e) !! child)
  ↔ child = (counter_name, touched_labels event_type task cls counter_name)
    ∨ is_Some (Exporter.state_counter_values e !! child).
Proof.
  unfold bump. cbn [Exporter.state_counter_values Exporter.with_log
    Exporter.with_state_counter_values].
  rewrite lookup_insert. case_decide; naive_solver.
Qed.

Lemma value_of_bumps event_type task cls counter_names e counter_name labelvalues :
  NoDup counter_names →
  value_of (Exporter.state_counter_values (bumps event_type task cls counter_names e))
    (counter_name, labelvalues)
  = value_of (Exporter.state_counter_values e) (counter_name, labelvalues)
    + (if decide (counter_name ∈ counter_names ∧ counter_name = event_type
                  ∧ labelvalues = touched_labels event_type task cls counter_name)
       then 1 else 0).
Proof.
  unfold bumps. intros Hnd. revert e.
  induction Hnd as [|k ks Hk Hnd IH]; intros e; cbn [foldl].
  - rewrite decide_False by (rewrite elem_of_nil; tauto). lia.
  - rewrite IH, value_of_bump.
    repeat case_decide; try lia; exfalso;
      rewrite ?elem_of_cons in *; naive_solver.
Qed.

Lemma exposed_bumps event_type task cls counter_names e child :
  is_Some (Exporter.state_counter_values (bumps event_type task cls counter_names e) !! child)
  ↔ (∃ counter_name, counter_name ∈ counter_names
       ∧ child = (counter_name, touched_labels event_type task cls counter_name))
    ∨ is_Some (Exporter.state_counter_values e !! child).
Proof.
  unfold bumps. revert e.
  induction counter_names as [|k ks IH]; intros e; cbn [foldl].
  - setoid_rewrite elem_of_nil. naive_solver.
  - rewrite IH, exposed_bump. setoid_rewrite elem_of_cons. naive_solver.
Qed.

#[local] Instance same_on_preorder {S B} (f : S → B) : PreOrder (same_on f).
Proof. split; [by intros ?|intros ??? ??; unfold same_on in *; congruence]. Qed.

Ltac exporter_prim :=
  intros ?;
  unfold Exporter.logger, Exporter.celery_task_queuetime_observe,
    Exporter.celery_task_runtime_observe, Exporter.celery_worker_up_set,
    Exporter.worker_tasks_active_set, bind, lift, modify, gets, ret, raise,
    histogram_observe, same_on;
  repeat (case_match; simplify_eq/=); try done.

Lemma track_task_event_unfold event now e st obj task cls :
  state_event (Exporter.state e) event = (st, obj) →
  tasks_get st (Event.uuid event) = Some task →
  (Event.type event = "task-failed" →
   get_exception_class (Task.exception task) = Ok cls) →
  Exporter.track_task_event event now e
  = observations event now task
      (bumps (Event.type event) task cls (state_counters.*1)
         (Exporter.with_log
            (Exporter.log e
             ++ (DEBUG, "Received event='{}' for task='{}'")
             :: match dict_get (Event.type event) state_counters with
                | None => [(WARNING, "No counter matches task state='{}'")]
                | Some _ => []
                end)
            (Exporter.with_state st e))).
Proof.
  intros Hst Hget Hcls.
  unfold Exporter.track_task_event, Exporter.self_state_event.
  unfold bind at 1. rewrite Hst. unfold bind at 1, gets.
  cbn [Exporter.state Exporter.with_state]. rewrite Hget.
  unfold bind at 1. unfold Exporter.logger at 1, modify at 1.
  unfold bind at 1.
  destruct (dict_get (Event.type event) state_counters) eqn:Hknown.
  - unfold ret at 1. unfold bind at 1.
    rewrite (for_each_state_counters _ _ cls) by done.
    reflexivity.
  - unfold Exporter.logger at 1, modify at 1. unfold bind at 1.
    rewrite (for_each_state_counters _ _ cls) by done.
    unfold observations.
    cbn [Exporter.log Exporter.with_log Exporter.with_state].
    rewrite <- app_assoc. reflexivity.
Qed.

Lemma observations_counters event now task :
  preserves (same_on (Exporter.state_counter_values (State := State)))
    (observations event now task).
Proof. unfold observations. exporter_prim. Qed.


Lemma self_state_event_preserves (R : relation (Exporter.t State)) event :
  (∀ st e, R e (Exporter.with_state st e)) →
  preserves R (Exporter.self_state_event event).
Proof.
  intros Hst e. unfold Exporter.self_state_event.
  destruct (state_event (Exporter.state e) event). apply Hst.
Qed.

Lemma logger_preserves (R : relation (Exporter.t State)) lvl msg :
  (∀ l e, R e (Exporter.with_log l e)) →
  preserves R (Exporter.logger lvl msg).
Proof. intros Hlog e. apply Hlog. Qed.

(** [track_task_event] keeps every relation that its steps keep: merging
    the event, logging, touching a counter by 0, incrementing the counter
    of the event's own type by 1, and the two observations. *)
Lemma track_task_event_preserves (R : relation (Exporter.t State)) `{!PreOrder R}
    event now :
  (∀ st e, R e (Exporter.with_state st e)) →
  (∀ l e, R e (Exporter.with_log l e)) →
  (∀ item _labels, item ∈ state_counters →
     preserves R (Exporter.state_counter_inc item.1 item.2 _labels 0)) →
  (∀ item _labels, item ∈ state_counters → item.1 = Event.type event →
     preserves R (Exporter.state_counter_inc item.1 item.2 _labels 1)) →
  (Event.type event = "task-started" → ∀ labels amount,
     preserves R (Exporter.celery_task_queuetime_observe labels amount)) →
  (Event.type event = "task-succeeded" → ∀ labels amount,
     preserves R (Exporter.celery_task_runtime_observe labels amount)) →
  preserves R (Exporter.track_task_event event now).
Proof.
  intros Hst Hlog Hzero Hone Hqueue Hrun.
  unfold Exporter.track_task_event.
  apply preserves_bind; [apply _|by apply self_state_event_preserves|intros _].
  apply preserves_bind; [apply _|apply preserves_gets, _|intros [task|]];
    [|apply preserves_raise, _].
  apply preserves_bind; [apply _|by apply logger_preserves|intros _].
  apply preserves_bind; [apply _| |intros _].
  { case_match; [apply preserves_ret, _|by apply logger_preserves]. }
  apply preserves_bind; [apply _| |intros _].
  { apply preserves_for_each; [apply _|]. intros [counter_name counter] Hitem.
    unfold Exporter.track_task_event_counter.
    apply preserves_bind; [apply _| |intros _labels].
    { repeat case_decide; try apply preserves_ret, _.
      apply preserves_bind; [apply _|apply preserves_lift, _|intros ?].
      apply preserves_ret, _. }
    apply preserves_bind; [apply _| |intros _; by apply logger_preserves].
    case_decide.
    - by apply (Hone (counter_name, counter)).
    - by apply (Hzero (counter_name, counter)). }
  apply preserves_bind; [apply _| |intros _].
  { case_decide; [|apply preserves_ret, _].
    repeat case_match; try apply preserves_ret, _.
    apply preserves_bind; [apply _|by apply Hqueue|intros _].
    by apply logger_preserves. }
  case_decide; [|apply preserves_ret, _].
  apply preserves_bind; [apply _|by apply Hrun|intros _].
  by apply logger_preserves.
Qed.

#[local] Instance counters_le_preorder : PreOrder (@counters_le State).
Proof.
  split.
  - intros e child. split; [lia|done].
  - intros e1 e2 e3 H12 H23 child.
    destruct (H12 child), (H23 child). split; [lia|tauto].
Qed.

#[local] Instance counters_same_preorder : PreOrder (@counters_same State).
Proof.
  split.
  - by intros e child.
  - intros e1 e2 e3 H12 H23 child. by rewrite H12.
Qed.

Lemma same_counters_le e e' :
  Exporter.state_counter_values e = Exporter.state_counter_values e' →
  counters_le e e'.
Proof. intros Heq child. rewrite Heq. split; [lia|done]. Qed.

Lemma counters_le_insert e child amount :
  0 ≤ amount →
  counters_le e
    (Exporter.with_state_counter_values
       (<[child := value_of (Exporter.state_counter_values e) child + amount]>
          (Exporter.state_counter_values e)) e).
Proof.
  intros Ha child'. cbn [Exporter.state_counter_values Exporter.with_state_counter_values].
  unfold value_of. rewrite lookup_insert. case_decide; subst; simpl.
  - split; [lia|by eauto].
  - split; [lia|done].
Qed.


(** A counter child never loses value, whatever the amount handed to
    [inc]: a negative one is refused. *)
Lemma state_counter_inc_le counter_name counter _labels amount :
  preserves (@counters_le State) (Exporter.state_counter_inc counter_name counter _labels amount).
Proof.
  intros e. unfold Exporter.state_counter_inc, bind, lift, modify.
  destruct (labels_kw counter _labels) as [labelvalues|]; [|reflexivity].
  cbn [fst snd]. unfold counter_inc.
  destruct (Z.ltb_spec amount 0) as [Hneg|Hpos]; cbn [fst snd].
  - unfold child_of.
    pose proof (counters_le_insert e (counter_name, labelvalues) 0 ltac:(lia)) as H.
    by rewrite Z.add_0_r in H.
  - cbn [Exporter.state_counter_values Exporter.with_state_counter_values].
    unfold child_of. rewrite insert_insert_eq.
    unfold value_of at 1. rewrite lookup_insert_eq. cbn [default].
    pose proof (counters_le_insert e (counter_name, labelvalues) amount Hpos) as H.
    by destruct e.
Qed.


Lemma track_task_event_le event now :
  preserves (@counters_le State) (Exporter.track_task_event event now).
Proof.
  apply track_task_event_preserves; try apply _;
    try (intros; apply state_counter_inc_le);
    try (intros; intros ?; by apply same_counters_le).
  all: intros; intros e; apply same_counters_le; revert e; exporter_prim.
Qed.

Lemma track_worker_status_counters event is_online :
  preserves (same_on (Exporter.state_counter_values (State := State)))
    (Exporter.track_worker_status event is_online).
Proof. unfold Exporter.track_worker_status. exporter_prim. Qed.

Lemma track_worker_heartbeat_counters event :
  preserves (same_on (Exporter.state_counter_values (State := State)))
    (Exporter.track_worker_heartbeat event).
Proof.
  intros e. unfold Exporter.track_worker_heartbeat, Exporter.self_state_event, bind.
  cbn [Exporter.logger modify fst snd]. unfold same_on.
  destruct (state_event _ _) as [st [task|worker|]]; done.
Qed.

Lemma handlers_eq :
  Exporter.handlers (State := State) = [
    ("worker-heartbeat", λ event _, Exporter.track_worker_heartbeat event);
    ("worker-online", λ event _, Exporter.track_worker_status event true);
    ("worker-offline", λ event _, Exporter.track_worker_status event false);
    ("task-sent", Exporter.track_task_event);
    ("task-received", Exporter.track_task_event);
    ("task-started", Exporter.track_task_event);
    ("task-succeeded", Exporter.track_task_event);
    ("task-failed", Exporter.track_task_event);
    ("task-rejected", Exporter.track_task_event);
    ("task-revoked", Exporter.track_task_event);
    ("task-retried", Exporter.track_task_event)].
Proof. reflexivity. Qed.

(** The handler table sends the eight task types to [track_task_event],
    the three worker types to the worker handlers, and nothing else
    anywhere. *)
Lemma process_cases event now :
  Exporter.process event now
  = if decide (Event.type event ∈ state_counters.*1) then
      Exporter.track_task_event event now
    else if decide (Event.type event = "worker-heartbeat") then
      Exporter.track_worker_heartbeat event
    else if decide (Event.type event = "worker-online") then
      Exporter.track_worker_status event true
    else if decide (Event.type event = "worker-offline") then
      Exporter.track_worker_status event false
    else ret tt.
Proof.
  unfold Exporter.process. rewrite handlers_eq.
  destruct event as [type uuid hostname]. cbn [Event.type].
  destruct (decide (type ∈ state_counters.*1)) as [Hin|Hnin].
  - cbn [state_counters fmap list_fmap fst] in Hin.
    repeat (apply elem_of_cons in Hin as [->|Hin]); try reflexivity.
    by apply elem_of_nil in Hin.
  - cbn [state_counters fmap list_fmap fst] in Hnin.
    rewrite !not_elem_of_cons in Hnin. destruct_and!.
    cbn [dict_get]. repeat case_decide; congruence.
Qed.

Lemma process_le event now :
  preserves (@counters_le State) (Exporter.process event now).
Proof.
  rewrite process_cases. repeat case_decide.
  - apply track_task_event_le.
  - intros e. apply same_counters_le, track_worker_heartbeat_counters.
  - intros e. apply same_counters_le, track_worker_status_counters.
  - intros e. apply same_counters_le, track_worker_status_counters.
  - apply preserves_ret, _.
Qed.

Lemma capture_le evs stop e :
  counters_le e (Exporter.capture evs stop e).1.
Proof.
  revert e. induction evs as [|[event now] evs IH]; intros e; cbn [Exporter.capture].
  - reflexivity.
  - pose proof (process_le event now e) as Hle.
    destruct (Exporter.process event now e) as [e' [[]|ex]]; cbn [fst] in *.
    + etrans; [exact Hle|apply IH].
    + exact Hle.
Qed.

Lemma run_le retry_interval deliveries e trace :
  counters_le e (Exporter.run retry_interval deliveries e trace).1.1.
Proof.
  revert e trace. induction deliveries as [|d rest IH]; intros e trace;
    cbn [Exporter.run]; [reflexivity|].
  pose proof (capture_le (Exporter.events d) (Exporter.ending d) e) as Hle.
  destruct (Exporter.capture _ _ e) as [e1 [|[ex| |]]]; cbn [fst] in Hle.
  - destruct (retry_interval <? 0); cbn [fst]; [exact Hle|].
    etrans; [exact Hle|apply IH].
  - destruct (retry_interval =? 0); cbn [fst]; [by apply same_counters_le in Hle || exact Hle|].
    destruct (retry_interval <? 0); cbn [fst]; [exact Hle|].
    etrans; [exact Hle|]. etrans; [|apply IH]. by apply same_counters_le.
  - exact Hle.
  - exact Hle.
Qed.

(** C9: along any sequence of operations of the exporter (events through
    the handler table, direct calls of the handlers, the consumption loop
    over any events and failures, updates of the queue-length gauge),
    whether they return or raise, no child of a task-lifecycle counter
    ever loses value or disappears. *)
Theorem counters_never_decrease e e' :
  rtc exporter_step e e' →
  ∀ counter_name labelvalues,
    counter_value e counter_name labelvalues ≤ counter_value e' counter_name labelvalues
    ∧ (counter_exposed e counter_name labelvalues →
       counter_exposed e' counter_name labelvalues).
Proof.
  intros Hsteps counter_name labelvalues.
  enough (counters_le e e') as H by apply (H (counter_name, labelvalues)).
  induction Hsteps as [e|e1 e2 e3 Hstep _ IH]; [reflexivity|].
  etrans; [|exact IH]. clear IH.
  destruct Hstep.
  - apply process_le.
  - apply track_task_event_le.
  - apply same_counters_le, track_worker_status_counters.
  - apply same_counters_le, track_worker_heartbeat_counters.
  - apply run_le.
  - by apply same_counters_le.
Qed.

(** *** The queue-time observation *)

Lemma bumps_frame {B} (f : Exporter.t State → B) event_type task cls counter_names e :
  (∀ e v, f (Exporter.with_state_counter_values v e) = f e) →
  (∀ e l, f (Exporter.with_log l e) = f e) →
  f (bumps event_type task cls counter_names e) = f e.
Proof.
  intros Hvalues Hlog. unfold bumps. revert e.
  induction counter_names as [|k ks IH]; intros e; cbn [foldl]; [done|].
  rewrite IH. unfold bump. by rewrite Hlog, Hvalues.
Qed.


(** The queue-time histogram after a task-started event: one observation
    more when [task.sent] is truthy, the same histogram otherwise. *)
Lemma track_task_event_started_queuetime event now e task :
  Event.type event = "task-started" →
  tasks_get (state_event (Exporter.state e) event).1 (Event.uuid event) = Some task →
  let labelvalues := [py_str (Task.name task); py_str (Task.hostname task)] in
  Exporter.celery_task_queuetime (Exporter.track_task_event event now e).1
  = match Task.sent task with
    | Some sent =>
        if float_truthy sent then
          <[labelvalues :=
              default [] (Exporter.celery_task_queuetime e !! labelvalues)
              ++ [PrimFloat.sub now sent]]> (Exporter.celery_task_queuetime e)
        else Exporter.celery_task_queuetime e
    | None => Exporter.celery_task_queuetime e
    end.
Proof.
  intros Hty Hget labelvalues.
  destruct (state_event (Exporter.state e) event) as [st obj] eqn:Hst.
  cbn [fst] in Hget.
  rewrite (track_task_event_unfold _ _ _ _ _ _ "" Hst Hget)
    by (rewrite Hty; discriminate).
  set (e1 := bumps _ _ _ _ _).
  assert (Exporter.celery_task_queuetime e1 = Exporter.celery_task_queuetime e)
    as <- by (unfold e1; by rewrite bumps_frame).
  unfold observations. rewrite Hty.
  rewrite decide_True by done. rewrite decide_False by discriminate.
  destruct (Task.sent task) as [sent|]; [|done].
  destruct (float_truthy sent); [|done].
  unfold Exporter.celery_task_queuetime_observe.
  rewrite labels_kw_name_hostname by done. reflexivity.
Qed.

Lemma state_counter_inc_frame {B} (f : Exporter.t State → B)
    counter_name counter _labels amount :
  (∀ e v, f (Exporter.with_state_counter_values v e) = f e) →
  preserves (same_on f) (Exporter.state_counter_inc counter_name counter _labels amount).
Proof.
  intros Hf e. unfold Exporter.state_counter_inc, bind, lift, modify, same_on.
  destruct (labels_kw counter _labels) as [labelvalues|]; [|done].
  cbn [fst snd]. destruct (counter_inc _ _ _); cbn [fst snd]; by rewrite ?Hf.
Qed.

(** An event of another type leaves the queue-time histogram alone,
    whether [track_task_event] returns or raises. *)
Lemma track_task_event_other_queuetime event now e :
  Event.type event ≠ "task-started" →
  Exporter.celery_task_queuetime (Exporter.track_task_event event now e).1
  = Exporter.celery_task_queuetime e.
Proof.
  intros Hty. symmetry. revert e.
  change (preserves (same_on (Exporter.celery_task_queuetime (State := State)))
            (Exporter.track_task_event event now)).
  apply track_task_event_preserves; try apply _; try done.
  - intros. by apply state_counter_inc_frame.
  - intros. by apply state_counter_inc_frame.
  - intros. exporter_prim.
Qed.

(** C8 (as amended): a task-started event whose merged task has a truthy
    sent timestamp (present and not zero) records exactly one observation,
    now minus the sent timestamp, in the queue-time histogram under the
    labels name and host name; an event of any other type, and a
    task-started event whose sent timestamp is absent or zero, record no
    queue-time observation. *)
Theorem queuetime_observed_iff_sent_truthy event now e task :
  tasks_get (state_event (Exporter.state e) event).1 (Event.uuid event) = Some task →
  let e' := (Exporter.track_task_event event now e).1 in
  let labelvalues := [py_str (Task.name task); py_str (Task.hostname task)] in
  (∀ sent,
     Event.type event = "task-started" → Task.sent task = Some sent →
     float_truthy sent = true →
     Exporter.celery_task_queuetime e'
     = <[labelvalues :=
           default [] (Exporter.celery_task_queuetime e !! labelvalues)
           ++ [PrimFloat.sub now sent]]> (Exporter.celery_task_queuetime e))
  ∧ (Event.type event ≠ "task-started"
     ∨ Task.sent task = None
     ∨ (∃ sent, Task.sent task = Some sent ∧ float_truthy sent = false) →
     Exporter.celery_task_queuetime e' = Exporter.celery_task_queuetime e).
Proof.
  intros Hget e' labelvalues. split.
  - intros sent Hty Hsent Htruthy. unfold e'.
    rewrite (track_task_event_started_queuetime _ _ _ task) by done.
    by rewrite Hsent, Htruthy.
  - intros Hno. unfold e'.
    destruct (decide (Event.type event = "task-started")) as [Hty|Hty];
      [|by apply track_task_event_other_queuetime].
    rewrite (track_task_event_started_queuetime _ _ _ task) by done.
    destruct Hno as [?|[->|(sent & -> & ->)]]; done.
Qed.

(** C10: for a task-started event the queue-time observation depends on
    the truth value of [task.sent], not on its presence: with a sent
    timestamp of exactly 0, as with none, nothing is observed and the
    queue-time histogram is left as it was. *)
Theorem queuetime_gate_is_truthiness event now e task :
  Event.type event = "task-started" →
  tasks_get (state_event (Exporter.state e) event).1 (Event.uuid event) = Some task →
  Task.sent task = None ∨ Task.sent task = Some 0%float →
  Exporter.celery_task_queuetime (Exporter.track_task_event event now e).1
  = Exporter.celery_task_queuetime e.
Proof.
  intros Hty Hget Hsent.
  rewrite (track_task_event_started_queuetime _ _ _ task) by done.
  by destruct Hsent as [->| ->].
Qed.

(** *** Events of a type without a counter *)

Lemma dict_get_None {V} key (d : dict V) :
  key ∉ d.*1 → dict_get key d = None.
Proof.
  induction d as [|[k v] d IH]; [done|]. cbn [dict_get fmap list_fmap fst].
  rewrite not_elem_of_cons. intros [Hne Hnin].
  rewrite decide_False by done. by apply IH.
Qed.







(** *** Worker status *)

Lemma track_worker_status_eq event is_online e :
  Exporter.track_worker_status event is_online e
  = (Exporter.with_celery_worker_up
       (gauge_set [Event.hostname event] (if is_online then 1 else 0)
          (Exporter.celery_worker_up e))
       (Exporter.with_log
          (Exporter.log e ++ [(DEBUG, "Received event='{}' for hostname='{}'")]) e),
     Ok tt).
Proof. reflexivity. Qed.

Lemma process_worker_status event now is_online :
  Event.type event = (if is_online then "worker-online" else "worker-offline") →
  Exporter.process event now = Exporter.track_worker_status event is_online.
Proof.
  intros Hty. rewrite process_cases.
  rewrite decide_False by (rewrite Hty; destruct is_online; compute_done).
  rewrite decide_False by (rewrite Hty; by destruct is_online).
  destruct is_online.
  - by rewrite decide_True.
  - rewrite decide_False by (by rewrite Hty). by rewrite decide_True.
Qed.

Lemma process_times_S n event now e :
  process_times (S n) event now e
  = (Exporter.process event now (process_times n event now e)).1.
Proof. reflexivity. Qed.

(** C7: a worker-online event sets the worker-alive gauge of its host
    name to 1 and a worker-offline event sets it to 0; handling the same
    event [n ≥ 1] times leaves the gauge as handling it once does; the
    result is a function of the gauge alone, and celery's state is neither
    read nor changed. *)
Theorem worker_status_sets_gauge event now e is_online :
  Event.type event = (if is_online then "worker-online" else "worker-offline") →
  let value := if is_online then 1 else 0 in
  let e1 := (Exporter.process event now e).1 in
  (Exporter.process event now e).2 = Ok tt
  ∧ Exporter.celery_worker_up e1
    = gauge_set [Event.hostname event] value (Exporter.celery_worker_up e)
  ∧ value_of (Exporter.celery_worker_up e1) [Event.hostname event] = value
  ∧ (∀ n, (1 ≤ n)%nat →
       Exporter.celery_worker_up (process_times n event now e)
       = Exporter.celery_worker_up e1)
  ∧ Exporter.state e1 = Exporter.state e
  ∧ (∀ e2, Exporter.celery_worker_up e2 = Exporter.celery_worker_up e →
       Exporter.celery_worker_up (Exporter.process event now e2).1
       = Exporter.celery_worker_up e1).
Proof.
  intros Hty value e1. subst e1.
  rewrite (process_worker_status _ _ is_online Hty).
  rewrite track_worker_status_eq. cbn [fst snd].
  cbn [Exporter.celery_worker_up Exporter.with_celery_worker_up
       Exporter.state Exporter.with_log].
  repeat split.
  - unfold value_of, gauge_set. by rewrite lookup_insert_eq.
  - intros n Hn. destruct n as [|n]; [lia|]. clear Hn.
    induction n as [|n IH].
    + unfold process_times. cbn [Nat.iter].
      by rewrite (process_worker_status _ _ is_online Hty).
    + rewrite process_times_S.
      rewrite (process_worker_status _ _ is_online Hty).
      rewrite track_worker_status_eq. cbn [fst].
      cbn [Exporter.celery_worker_up Exporter.with_celery_worker_up Exporter.with_log].
      rewrite IH. unfold gauge_set. by rewrite insert_insert_eq.
  - intros e2 Heq. rewrite track_worker_status_eq. cbn [fst].
    cbn [Exporter.celery_worker_up Exporter.with_celery_worker_up Exporter.with_log].
    by rewrite Heq.
Qed.

(** *** The consumption loop *)


(** *** Further properties of the handlers *)

(** X1: a worker-heartbeat event whose merge gives a worker sets the
    worker-alive gauge of the event's host name to 1 or 0 after the
    worker's [alive] flag and the active-tasks gauge to its [active] count,
    0 when that is [None]; counters, histograms and the queue-length gauge
    are left alone. *)
Theorem heartbeat_sets_gauges event now e st worker :
  Event.type event = "worker-heartbeat" →
  state_event (Exporter.state e) event = (st, MergedWorker worker) →
  let e' := (Exporter.process event now e).1 in
  (Exporter.process event now e).2 = Ok tt
  ∧ Exporter.celery_worker_up e'
    = gauge_set [Event.hostname event] (if Worker.alive worker then 1 else 0)
        (Exporter.celery_worker_up e)
  ∧ Exporter.worker_tasks_active e'
    = gauge_set [Event.hostname event]
        (match Worker.active worker with Some n => n | None => 0 end)
        (Exporter.worker_tasks_active e)
  ∧ Exporter.state e' = st
  ∧ task_metrics e' = task_metrics e
  ∧ Exporter.queue_length e' = Exporter.queue_length e.
Proof.
  intros Hty Hst e'. subst e'.
  rewrite process_cases. rewrite decide_False by (rewrite Hty; compute_done).
  rewrite decide_True by done.
  unfold Exporter.track_worker_heartbeat, Exporter.self_state_event, bind.
  cbn [Exporter.logger modify fst snd Exporter.state Exporter.with_log].
  rewrite Hst. by destruct worker as [[n|] alive].
Qed.

(** X6: when celery's state has no task for the uuid of the event,
    [track_task_event] raises [AttributeError] at its first use of the task:
    the event has been merged, but nothing is logged and no metric is
    touched. *)
Theorem missing_task_raises event now e :
  tasks_get (state_event (Exporter.state e) event).1 (Event.uuid event) = None →
  Exporter.track_task_event event now e
  = (Exporter.with_state (state_event (Exporter.state e) event).1 e,
     Raise AttributeError).
Proof.
  intros Hget. unfold Exporter.track_task_event, Exporter.self_state_event, bind, gets.
  destruct (state_event (Exporter.state e) event) as [st obj].
  cbn [fst snd Exporter.state Exporter.with_state] in *. by rewrite Hget.
Qed.


(** X2: a task-succeeded event whose task has a runtime records exactly
    that runtime, once, in the runtime histogram under name and host name,
    and the call returns; an event of any other type leaves the runtime
    histogram as it was. *)
Theorem runtime_observed_on_success event now e task :
  tasks_get (state_event (Exporter.state e) event).1 (Event.uuid event) = Some task →
  let e' := (Exporter.track_task_event event now e).1 in
  let labelvalues := [py_str (Task.name task); py_str (Task.hostname task)] in
  (∀ runtime,
     Event.type event = "task-succeeded" → Task.runtime task = Some runtime →
     (Exporter.track_task_event event now e).2 = Ok tt
     ∧ Exporter.celery_task_runtime e'
       = <[labelvalues :=
             default [] (Exporter.celery_task_runtime e !! labelvalues) ++ [runtime]]>
           (Exporter.celery_task_runtime e))
  ∧ (Event.type event ≠ "task-succeeded" →
     Exporter.celery_task_runtime e' = Exporter.celery_task_runtime e).
Proof.
  intros Hget e' labelvalues. split.
  - intros runtime Hty Hruntime. subst e'.
    destruct (state_event (Exporter.state e) event) as [st obj] eqn:Hst.
    cbn [fst] in Hget.
    rewrite (track_task_event_unfold _ _ _ _ _ _ "" Hst Hget)
      by (rewrite Hty; discriminate).
    set (e1 := bumps _ _ _ _ _).
    assert (Exporter.celery_task_runtime e1 = Exporter.celery_task_runtime e)
      as <- by (unfold e1; by rewrite bumps_frame).
    unfold observations. rewrite Hty.
    rewrite decide_False by discriminate. rewrite decide_True by done.
    unfold Exporter.celery_task_runtime_observe.
    unfold bind at 1. unfold ret at 1. cbv beta iota.
    unfold bind at 1, lift at 1. rewrite labels_kw_name_hostname by done.
    rewrite Hruntime. done.
  - intros Hty. subst e'. symmetry. revert e Hget. intros e _. revert e.
    change (preserves (same_on (Exporter.celery_task_runtime (State := State)))
              (Exporter.track_task_event event now)).
    apply track_task_event_preserves; try apply _; try done.
    + intros. by apply state_counter_inc_frame.
    + intros. by apply state_counter_inc_frame.
    + intros. exporter_prim.
Qed.

(** X5: each handler writes its own metrics only.  [track_task_event]
    never changes a worker gauge or the queue-length gauge, the two worker
    handlers never change a counter or a histogram, whether they return or
    raise; the same holds through the handler table. *)
Theorem handlers_write_their_own_metrics event now e :
  gauges (Exporter.track_task_event event now e).1 = gauges e
  ∧ (∀ is_online,
       task_metrics (Exporter.track_worker_status event is_online e).1 = task_metrics e)
  ∧ task_metrics (Exporter.track_worker_heartbeat event e).1 = task_metrics e
  ∧ (Event.type event ∈ state_counters.*1 →
     gauges (Exporter.process event now e).1 = gauges e)
  ∧ (Event.type event ∉ state_counters.*1 →
     task_metrics (Exporter.process event now e).1 = task_metrics e).
Proof.
  assert (∀ e, gauges (Exporter.track_task_event event now e).1 = gauges e) as Htask.
  { intros e0. symmetry. revert e0.
    change (preserves (same_on (gauges (State := State)))
              (Exporter.track_task_event event now)).
    apply track_task_event_preserves; try apply _; try done.
    - intros. by apply state_counter_inc_frame.
    - intros. by apply state_counter_inc_frame.
    - intros. exporter_prim.
    - intros. exporter_prim. }
  assert (∀ is_online e,
    task_metrics (Exporter.track_worker_status event is_online e).1 = task_metrics e)
    as Hstatus by done.
  assert (∀ e, task_metrics (Exporter.track_worker_heartbeat event e).1 = task_metrics e)
    as Hheartbeat.
  { intros e0. unfold Exporter.track_worker_heartbeat, Exporter.self_state_event, bind.
    cbn [Exporter.logger modify fst snd].
    destruct (state_event _ _) as [st [task|worker|]]; done. }
  split; [done|]. split; [done|]. split; [done|]. split.
  - intros Hin. rewrite process_cases. by rewrite decide_True.
  - intros Hnin. rewrite process_cases. rewrite decide_False by done.
    repeat case_decide; done.
Qed.


Lemma for_each_state_counters_no_exception event task e :
  Event.type event = "task-failed" →
  Task.exception task = None →
  for_each state_counters
    (Exporter.track_task_event_counter event task
       [("name", Task.name task); ("hostname", Task.hostname task)]) e
  = (bumps "task-failed" task ""
       ["task-sent"; "task-received"; "task-started"; "task-succeeded"] e,
     Raise TypeError).
Proof.
  intros Hty Hexc.
  assert (∀ counter_name counter e0,
    counter_name ≠ "task-failed" → labelnames counter = ["name"; "hostname"] →
    Exporter.track_task_event_counter event task
      [("name", Task.name task); ("hostname", Task.hostname task)]
      (counter_name, counter) e0
    = (bump "task-failed" task "" counter_name e0, Ok tt)) as Hplain.
  { intros. rewrite <- Hty. by apply track_task_event_counter_plain. }
  unfold state_counters. cbn [for_each].
  unfold bind at 1. rewrite Hplain by done.
  unfold bind at 1. rewrite Hplain by done.
  unfold bind at 1. rewrite Hplain by done.
  unfold bind at 1. rewrite Hplain by done.
  unfold bind at 1.
  unfold Exporter.track_task_event_counter at 1.
  rewrite decide_True by done. rewrite decide_True by done.
  unfold bind at 1. unfold bind at 1. unfold lift at 1.
  rewrite Hexc. reflexivity.
Qed.

Lemma track_task_event_failed_no_exception event now e st obj task :
  Event.type event = "task-failed" →
  state_event (Exporter.state e) event = (st, obj) →
  tasks_get st (Event.uuid event) = Some task →
  Task.exception task = None →
  Exporter.track_task_event event now e
  = (bumps "task-failed" task ""
       ["task-sent"; "task-received"; "task-started"; "task-succeeded"]
       (Exporter.with_log
          (Exporter.log e ++ [(DEBUG, "Received event='{}' for task='{}'")])
          (Exporter.with_state st e)),
     Raise TypeError).
Proof.
  intros Hty Hst Hget Hexc.
  unfold Exporter.track_task_event, Exporter.self_state_event.
  unfold bind at 1. rewrite Hst. unfold bind at 1, gets.
  cbn [Exporter.state Exporter.with_state]. rewrite Hget.
  unfold bind at 1. unfold Exporter.logger at 1, modify at 1.
  unfold bind at 1.
  assert (dict_get (Event.type event) state_counters
          = Some {| metric_name := "celery_task_failed";
                    labelnames := ["name"; "hostname"; "exception"] |}) as ->
    by (by rewrite Hty).
  unfold ret at 1. unfold bind at 1.
  by rewrite for_each_state_counters_no_exception.
Qed.

(** X3: a task-failed event whose task has no exception string makes
    [track_task_event] raise [TypeError] in the middle of the loop: the
    four counters before task-failed have been touched by zero, the
    failure is not counted, and the counters from task-failed on are not
    touched at all. *)
Theorem failure_without_exception_not_counted event now e task :
  Event.type event = "task-failed" →
  tasks_get (state_event (Exporter.state e) event).1 (Event.uuid event) = Some task →
  Task.exception task = None →
  let e' := (Exporter.track_task_event event now e).1 in
  let labelvalues := [py_str (Task.name task); py_str (Task.hostname task)] in
  (Exporter.track_task_event event now e).2 = Raise TypeError
  ∧ (∀ counter_name labelvalues',
       counter_value e' counter_name labelvalues'
       = counter_value e counter_name labelvalues')
  ∧ (∀ counter_name,
       counter_name ∈ ["task-sent"; "task-received"; "task-started"; "task-succeeded"] →
       counter_exposed e' counter_name labelvalues)
  ∧ (∀ counter_name labelvalues',
       counter_name ∈ ["task-failed"; "task-rejected"; "task-revoked"; "task-retried"] →
       Exporter.state_counter_values e' !! (counter_name, labelvalues')
       = Exporter.state_counter_values e !! (counter_name, labelvalues')).
Proof.
  intros Hty Hget Hexc e' labelvalues. subst e'.
  destruct (state_event (Exporter.state e) event) as [st obj] eqn:Hst.
  cbn [fst] in Hget.
  rewrite (track_task_event_failed_no_exception _ _ _ st obj task) by done.
  cbn [fst snd]. split; [done|]. split; [|split].
  - intros counter_name labelvalues'. unfold counter_value.
    rewrite value_of_bumps by (apply (bool_decide_unpack _); vm_compute; exact I).
    cbn [Exporter.state_counter_values Exporter.with_log Exporter.with_state].
    rewrite decide_False; [lia|].
    intros (Hin & -> & _). revert Hin. apply (bool_decide_unpack _). by vm_compute.
  - intros counter_name Hin. unfold counter_exposed. apply exposed_bumps. left.
    exists counter_name. split; [done|]. unfold touched_labels.
    rewrite decide_False; [done|].
    intros ->. revert Hin. apply (bool_decide_unpack _). by vm_compute.
  - intros counter_name labelvalues' Hin.
    set (e1 := Exporter.with_log _ _).
    change (Exporter.state_counter_values e) with (Exporter.state_counter_values e1).
    generalize e1. clear e1. intros e1.
    assert (∀ names, counter_name ∉ names →
      Exporter.state_counter_values (bumps "task-failed" task "" names e1)
        !! (counter_name, labelvalues')
      = Exporter.state_counter_values e1 !! (counter_name, labelvalues')) as Hframe.
    { intros names. unfold bumps. revert e1.
      induction names as [|k ks IH]; intros e1 Hnin; cbn [foldl]; [done|].
      apply not_elem_of_cons in Hnin as [Hne Hnin]. rewrite IH by done.
      unfold bump. cbn [Exporter.state_counter_values Exporter.with_log
        Exporter.with_state_counter_values].
      rewrite lookup_insert_ne; [done|congruence]. }
    apply Hframe. intros Hin'. revert Hin Hin'.
    rewrite !elem_of_cons, !elem_of_nil. naive_solver.
Qed.


Lemma track_task_event_value event now e task cls counter_name labelvalues :
  tasks_get (state_event (Exporter.state e) event).1 (Event.uuid event) = Some task →
  (Event.type event = "task-failed" →
   get_exception_class (Task.exception task) = Ok cls) →
  counter_value (Exporter.track_task_event event now e).1 counter_name labelvalues
  = counter_value e counter_name labelvalues
    + (if decide (counter_name ∈ state_counters.*1 ∧ counter_name = Event.type event
                  ∧ labelvalues = touched_labels (Event.type event) task cls counter_name)
       then 1 else 0).
Proof.
  intros Hget Hcls.
  destruct (state_event (Exporter.state e) event) as [st obj] eqn:Hst.
  cbn [fst] in Hget.
  rewrite (track_task_event_unfold _ _ _ _ _ _ cls Hst Hget Hcls).
  unfold counter_value.
  rewrite <- (observations_counters event now task _).
  by rewrite value_of_bumps by (apply (bool_decide_unpack _); vm_compute; exact I).
Qed.

(** X4: nothing deduplicates deliveries: handling the same event twice
    adds 2 to the counter of its type (under the same labels). *)
Theorem duplicate_delivery_counted_twice event now now' e task task' cls :
  let e1 := (Exporter.track_task_event event now e).1 in
  let e2 := (Exporter.track_task_event event now' e1).1 in
  let labelvalues :=
    touched_labels (Event.type event) task cls (Event.type event) in
  Event.type event ∈ state_counters.*1 →
  tasks_get (state_event (Exporter.state e) event).1 (Event.uuid event) = Some task →
  tasks_get (state_event (Exporter.state e1) event).1 (Event.uuid event) = Some task' →
  Task.name task' = Task.name task →
  Task.hostname task' = Task.hostname task →
  (Event.type event = "task-failed" →
   get_exception_class (Task.exception task) = Ok cls
   ∧ get_exception_class (Task.exception task') = Ok cls) →
  counter_value e2 (Event.type event) labelvalues
  = counter_value e (Event.type event) labelvalues + 2.
Proof.
  intros e1 e2 labelvalues Hty Hget Hget' Hname Hhost Hcls. subst e2.
  rewrite (track_task_event_value _ _ _ task' cls) by (done || apply Hcls).
  subst e1.
  rewrite (track_task_event_value _ _ _ task cls) by (done || apply Hcls).
  assert (touched_labels (Event.type event) task' cls (Event.type event) = labelvalues)
    as Hsame by (unfold labelvalues, touched_labels; by rewrite Hname, Hhost).
  rewrite Hsame. rewrite !decide_True by done. lia.
Qed.

(** *** The consumption loop, continued *)

Lemma capture_ending evs stop e :
  (Exporter.capture evs stop e).2 = stop
  ∨ ∃ ex, (Exporter.capture evs stop e).2 = Exporter.Raises (Exc ex).
Proof.
  revert e. induction evs as [|[event now] evs IH]; intros e; cbn [Exporter.capture].
  - by left.
  - destruct (Exporter.process event now e) as [e' [[]|ex]]; [apply IH|].
    right. by exists ex.
Qed.


(** X10: with a negative retry interval the first receive phase that
    ends without a shutdown signal ends [run] with the [ValueError] of
    [time.sleep], whatever made the phase end. *)
Theorem negative_retry_interval_raises retry_interval d rest e trace :
  retry_interval < 0 →
  no_shutdown d →
  (Exporter.run retry_interval (d :: rest) e trace).2
  = Exporter.Propagates (Exc ValueError)
  ∧ (Exporter.run retry_interval (d :: rest) e trace).1.2
    = trace ++ [Exporter.Receive].
Proof.
  intros Hneg [Hki Hse]. cbn [Exporter.run].
  destruct (Z.eqb_spec retry_interval 0) as [?|_]; [lia|].
  destruct (Z.ltb_spec retry_interval 0) as [_|?]; [|lia].
  pose proof (capture_ending (Exporter.events d) (Exporter.ending d) e) as Hend.
  destruct (Exporter.capture _ _ e) as [e1 stop]. cbn [snd] in Hend.
  destruct stop as [|[ex| |]]; try done;
    destruct Hend as [Heq|[ex' [=]]]; by rewrite <- Heq in *.
Qed.

(** X11: receive phases that deliver no event change nothing but the
    log: celery's state, the counters, the histograms and the gauges are
    after any number of failures and retries what they were. *)
Theorem failed_receives_keep_metrics retry_interval deliveries e trace :
  Forall (λ d, Exporter.events d = []) deliveries →
  let e' := (Exporter.run retry_interval deliveries e trace).1.1 in
  Exporter.state e' = Exporter.state e
  ∧ task_metrics e' = task_metrics e
  ∧ gauges e' = gauges e.
Proof.
  intros Hall. revert e trace.
  induction Hall as [|d rest Hd _ IH]; intros e trace; [done|].
  cbn [Exporter.run]. rewrite Hd. cbn [Exporter.capture].
  destruct (Exporter.ending d) as [|[ex| |]]; try done.
  - destruct (retry_interval <? 0); [done|]. apply IH.
  - destruct (retry_interval =? 0); [done|].
    destruct (retry_interval <? 0); [done|].
    match goal with
    | |- context [Exporter.run _ _ ?e2 ?t] => destruct (IH e2 t) as (-> & -> & ->)
    end. done.
Qed.

End ExporterFacts.

(** ** [QueueLengthMonitor]: properties *)

Section QueueLengthMonitorFacts.
Import QueueLengthMonitor.
Implicit Types (m : QueueLengthMonitor.t) (lengths : dict Z) (queue : string).

Lemma dict_get_set {V} k k' (v : V) (d : dict V) :
  dict_get k (dict_set k' v d) = if decide (k = k') then Some v else dict_get k d.
Proof.
  induction d as [|[k0 v0] d IH]; cbn [dict_set dict_get].
  - by repeat case_decide.
  - repeat (case_decide; cbn [dict_get]); subst; done.
Qed.

Lemma dict_set_keys {V} k (v : V) (d : dict V) :
  NoDup d.*1 → NoDup (dict_set k v d).*1.
Proof.
  induction d as [|[k0 v0] d IH]; cbn [dict_set fmap list_fmap fst].
  - intros _. apply NoDup_singleton.
  - rewrite NoDup_cons. intros [Hk0 Hd].
    case_decide; subst; cbn [fmap list_fmap fst]; apply NoDup_cons.
    + done.
    + split; [|by apply IH]. intros Hin. apply Hk0.
      apply list_elem_of_fmap in Hin as [[k1 v1] [-> Hin]].
      assert (dict_get k1 (dict_set k v d) ≠ None) as Hget.
      { clear -Hin. induction (dict_set k v d) as [|[k2 v2] d' IH'];
          [by apply elem_of_nil in Hin|].
        cbn [dict_get]. case_decide; [done|].
        apply elem_of_cons in Hin as [[= -> ->]|Hin]; [done|by apply IH']. }
      rewrite dict_get_set in Hget. rewrite decide_False in Hget by done.
      clear -Hget. induction d as [|[k2 v2] d IH']; [done|].
      cbn [dict_get] in Hget. cbn [fmap list_fmap fst].
      case_decide; subst; [by constructor|]. constructor. by apply IH'.
Qed.

Lemma counter_add_get queue queue' n lengths :
  default 0 (dict_get queue (counter_add queue' n lengths))
  = default 0 (dict_get queue lengths) + (if decide (queue = queue') then n else 0).
Proof.
  unfold counter_add. rewrite dict_get_set. case_decide; subst; simpl; lia.
Qed.

Lemma counter_add_is_Some queue queue' n lengths :
  is_Some (dict_get queue (counter_add queue' n lengths))
  ↔ queue = queue' ∨ is_Some (dict_get queue lengths).
Proof.
  unfold counter_add. rewrite dict_get_set. case_decide; naive_solver.
Qed.

Lemma unacked_count_cons queue task rest :
  unacked_count queue (task :: rest)
  = (if names_queue queue task then 1 else 0) + unacked_count queue rest.
Proof.
  unfold unacked_count. cbn [List.filter].
  destruct (names_queue queue task); cbn [length]; lia.
Qed.

Lemma unacked_count_nonneg queue unacked : 0 ≤ unacked_count queue unacked.
Proof. unfold unacked_count. lia. Qed.

Lemma tally_unacked_get unacked lengths lengths' queue :
  tally_unacked unacked lengths = Ok lengths' →
  default 0 (dict_get queue lengths')
  = default 0 (dict_get queue lengths) + unacked_count queue unacked
  ∧ (is_Some (dict_get queue lengths')
     ↔ 0 < unacked_count queue unacked ∨ is_Some (dict_get queue lengths))
  ∧ (NoDup lengths.*1 → NoDup lengths'.*1).
Proof.
  revert lengths.
  induction unacked as [|task rest IH]; intros lengths; cbn [tally_unacked].
  - intros [= <-]. unfold unacked_count. cbn. split; [lia|]. split; [|done].
    split; [tauto|]. intros [?|?]; [lia|done].
  - rewrite unacked_count_cons. unfold names_queue.
    pose proof (unacked_count_nonneg queue rest) as Hnn.
    destruct (final_field task) as [q|]; [|done].
    intros Hrest. destruct (IH _ Hrest) as (Hval & Hsome & Hnd).
    rewrite Hval, Hsome, counter_add_get, counter_add_is_Some.
    split; [|split].
    + case_bool_decide; case_decide; subst; try lia; congruence.
    + case_bool_decide; subst; split; intros; destruct_or!;
        try (left; lia); try (by right); try tauto; try lia; try congruence.
    + intros. apply Hnd. by apply dict_set_keys.
Qed.

Lemma configured_times_cons queue q qs :
  configured_times queue (q :: qs)
  = (if decide (queue = q) then 1 else 0) + configured_times queue qs.
Proof.
  unfold configured_times. cbn [List.filter].
  case_bool_decide; case_decide; subst; cbn [length]; try lia; congruence.
Qed.

Lemma configured_times_once queue qs :
  NoDup qs → queue ∈ qs → configured_times queue qs = 1.
Proof.
  induction 1 as [|q qs Hq Hnd IH]; intros Hin; [by apply elem_of_nil in Hin|].
  rewrite configured_times_cons.
  apply elem_of_cons in Hin as [->|Hin].
  - rewrite decide_True by done.
    assert (configured_times q qs = 0) as ->; [|lia].
    clear -Hq. induction qs as [|q' qs IH]; [done|].
    rewrite configured_times_cons. apply not_elem_of_cons in Hq as [Hne Hq].
    rewrite decide_False by done. by rewrite IH.
  - rewrite decide_False by (intros ->; done). by rewrite IH.
Qed.


Lemma add_llens_get (f : string → Z) qs lengths queue :
  default 0 (dict_get queue (add_llens (map f qs) qs lengths))
  = default 0 (dict_get queue lengths) + configured_times queue qs * f queue
  ∧ (is_Some (dict_get queue (add_llens (map f qs) qs lengths))
     ↔ queue ∈ qs ∨ is_Some (dict_get queue lengths))
  ∧ (NoDup lengths.*1 → NoDup (add_llens (map f qs) qs lengths).*1).
Proof.
  unfold add_llens. revert lengths.
  induction qs as [|q qs IH]; intros lengths; cbn [map zip zip_with fold_left].
  - unfold configured_times. cbn. split; [lia|]. split; [|done].
    rewrite elem_of_nil. tauto.
  - destruct (IH (counter_add q (f q) lengths)) as (Hval & Hsome & Hnd).
    rewrite Hval, Hsome, counter_add_get, counter_add_is_Some,
      configured_times_cons, elem_of_cons.
    split; [|split].
    + case_decide; subst; lia.
    + naive_solver.
    + intros. apply Hnd. by apply dict_set_keys.
Qed.

Lemma publish_eq queue length m :
  publish (queue, length) m
  = (with_gauge (gauge_set [queue] length (gauge m)) m, Ok tt).
Proof. reflexivity. Qed.

(** The loop that publishes [lengths]: every key gets its value, and
    nothing else in the monitor changes. *)
Lemma for_each_publish lengths m :
  NoDup lengths.*1 →
  ∃ m',
    for_each lengths publish m = (m', Ok tt)
    ∧ (∀ queue, published m' queue
                = match dict_get queue lengths with
                  | Some length => Some length
                  | None => published m queue
                  end)
    ∧ queues m' = queues m ∧ interval m' = interval m
    ∧ running m' = running m ∧ log m' = log m ∧ slept m' = slept m.
Proof.
  revert m. induction lengths as [|[q v] lengths IH]; intros m.
  - intros _. exists m. by repeat split.
  - cbn [fmap list_fmap fst]. rewrite NoDup_cons. intros [Hq Hnd].
    cbn [for_each]. unfold bind. rewrite publish_eq.
    destruct (IH (with_gauge (gauge_set [q] v (gauge m)) m) Hnd)
      as (m' & -> & Hpub & ? & ? & ? & ? & ?).
    exists m'. repeat split; try done.
    intros queue. rewrite Hpub. cbn [dict_get].
    case_decide; subst.
    + rewrite dict_get_None by done.
      unfold published, gauge_set. cbn [gauge with_gauge].
      by rewrite lookup_insert_eq.
    + destruct (dict_get queue lengths); [done|].
      unfold published, gauge_set. cbn [gauge with_gauge].
      rewrite lookup_insert_ne; [done|congruence].
Qed.

(** A cycle that returns has tallied every unacknowledged entry, added
    every raw length, published the sums and slept for the interval. *)
Lemma cycle_returns r m m' :
  cycle (Reachable r) m = (m', Ok tt) →
  (∀ queue,
     published m' queue
     = if decide (queue ∈ queues m ∨ 0 < unacked_count queue (hvals_unacked r)) then
         Some (configured_times queue (queues m) * llen r queue
               + unacked_count queue (hvals_unacked r))
       else published m queue)
  ∧ slept m' = slept m ++ [interval m]
  ∧ running m' = running m ∧ log m' = log m ∧ queues m' = queues m.
Proof.
  unfold cycle, bind, gets, lift. cbn [fst snd].
  destruct (tally_unacked (hvals_unacked r) []) as [lengths|] eqn:Htally; [|done].
  pose proof (λ queue, tally_unacked_get _ _ _ queue Htally) as Hlengths.
  pose proof (λ queue, add_llens_get (llen r) (queues m) lengths queue) as Hall.
  destruct (for_each_publish (add_llens (map (llen r) (queues m)) (queues m) lengths) m)
    as (m1 & -> & Hpub & Hq & Hi & Hr & Hl & Hs).
  { destruct (add_llens_get (llen r) (queues m) lengths "") as (_ & _ & Hnd).
    apply Hnd.
    destruct (tally_unacked_get _ _ _ "" Htally) as (_ & _ & Hnd0).
    apply Hnd0. constructor. }
  unfold sleep. rewrite Hi.
  destruct (interval m <? 0); [done|]. intros [= <-].
  cbn [slept with_slept running log queues]. repeat split; try done; [|by rewrite Hs].
  intros queue. unfold published in *. cbn [gauge with_slept]. rewrite Hpub.
  destruct (Hlengths queue) as (Hv1 & Hs1 & _).
  destruct (Hall queue) as (Hv2 & Hs2 & _).
  cbn [dict_get default] in Hv1, Hs1.
  destruct (dict_get queue (add_llens _ _ _)) as [length|] eqn:Hget.
  - rewrite decide_True.
    + f_equal. simpl in Hv2. lia.
    + destruct Hs2 as [[?|Hsome] _]; [by eauto|by left|].
      right. apply Hs1 in Hsome as [?|[? [=]]]. done.
  - rewrite decide_False; [done|].
    intros [Hin|Hpos]; destruct Hs2 as [_ Hs2].
    + destruct Hs2 as [? [=]]. by left.
    + destruct Hs2 as [? [=]]. right. apply Hs1. by left.
Qed.

(** A cycle returns when the broker answers, every unacknowledged entry
    decodes to a non-empty array and the interval is not negative. *)
Lemma cycle_succeeds r m :
  Forall (λ task, ∃ queue, final_field task = Ok queue) (hvals_unacked r) →
  0 ≤ interval m →
  ∃ m', cycle (Reachable r) m = (m', Ok tt).
Proof.
  intros Hdecodes Hinterval.
  assert (∀ lengths, ∃ lengths', tally_unacked (hvals_unacked r) lengths = Ok lengths')
    as Htally.
  { induction Hdecodes as [|task rest [queue Hq] _ IH]; intros lengths;
      cbn [tally_unacked]; [by eauto|]. rewrite Hq. apply IH. }
  destruct (Htally []) as [lengths Hlengths].
  unfold cycle, bind, gets, lift. cbn [fst snd]. rewrite Hlengths.
  destruct (for_each_publish (add_llens (map (llen r) (queues m)) (queues m) lengths) m)
    as (m1 & -> & _ & _ & Hi & _).
  { destruct (add_llens_get (llen r) (queues m) lengths "") as (_ & _ & Hnd).
    apply Hnd.
    destruct (tally_unacked_get _ _ _ "" Hlengths) as (_ & _ & Hnd0).
    apply Hnd0. constructor. }
  unfold sleep. rewrite Hi.
  destruct (Z.ltb_spec (interval m) 0) as [?|_]; [lia|]. by eauto.
Qed.


(** A cycle changes neither the flag, the log nor the configuration, and
    sleeps at most once. *)
Lemma cycle_frame b m :
  let m' := (cycle b m).1 in
  running m' = running m ∧ log m' = log m
  ∧ queues m' = queues m ∧ interval m' = interval m
  ∧ match (cycle b m).2 with
    | Ok _ => slept m' = slept m ++ [interval m]
    | Raise _ => slept m' = slept m
    end.
Proof.
  destruct b as [ex|r]; [done|].
  unfold cycle, bind, gets, lift. cbn [fst snd].
  destruct (tally_unacked (hvals_unacked r) []) as [lengths|] eqn:Htally; [|done].
  destruct (for_each_publish (add_llens (map (llen r) (queues m)) (queues m) lengths) m)
    as (m1 & -> & _ & Hq & Hi & Hr & Hl & Hs).
  { destruct (add_llens_get (llen r) (queues m) lengths "") as (_ & _ & Hnd).
    apply Hnd.
    destruct (tally_unacked_get _ _ _ "" Htally) as (_ & _ & Hnd0).
    apply Hnd0. constructor. }
  unfold sleep. rewrite Hi.
  destruct (interval m <? 0); cbn [fst snd]; [done|].
  unfold modify. cbn [fst snd running log queues interval slept with_slept].
  by rewrite Hs.
Qed.

(** Whatever happens in its cycles, a thread that nobody stops keeps
    running, and every tick is a cycle followed by one sleep. *)
Lemma run_keeps_running ticks m :
  Forall is_cycle ticks → running m = true →
  running (run ticks m) = true
  ∧ length (slept (run ticks m)) = (length (slept m) + length ticks)%nat.
Proof.
  intros Hticks. revert m.
  induction Hticks as [|tick ticks Htick _ IH]; intros m Hrun.
  - cbn. split; [done|lia].
  - destruct tick as [|b]; [done|]. cbn [run]. rewrite Hrun.
    pose proof (cycle_frame b m) as (Hr & _ & _ & _ & Hs).
    destruct (cycle b m) as [m' [[]|ex]]; cbn [fst snd] in *.
    + destruct (IH m') as [-> ->]; [congruence|].
      rewrite Hs, length_app. cbn. split; [done|lia].
    + destruct (IH (on_exception m')) as [-> ->]; [cbn; congruence|].
      cbn [on_exception slept with_slept with_log].
      rewrite length_app, Hs. cbn. split; [done|lia].
Qed.

(** C6: when a cycle of the sampler raises, the loop goes on: the
    exception is logged, the thread sleeps one second and, the running
    flag still set, the next cycle runs and publishes; a thread that is
    not stopped never leaves the loop, whatever its cycles raise. *)
Theorem sampler_survives_exceptions b rest m m1 ex :
  running m = true →
  cycle b m = (m1, Raise ex) →
  let m2 := on_exception m1 in
  run (Cycle b :: rest) m = run rest m2
  ∧ running m2 = true
  ∧ log m2 = log m ++ [(ERROR, "Uncaught exception, preventing thread from crashing: {}")]
  ∧ slept m2 = slept m ++ [1]
  ∧ (∀ b' rest' m3,
       rest = Cycle b' :: rest' → cycle b' m2 = (m3, Ok tt) →
       run (Cycle b :: rest) m = run rest' m3)
  ∧ (Forall is_cycle rest →
     running (run (Cycle b :: rest) m) = true
     ∧ length (slept (run (Cycle b :: rest) m))
       = (length (slept m) + 1 + length rest)%nat).
Proof.
  intros Hrun Hcycle m2.
  pose proof (cycle_frame b m) as (Hr & Hl & _ & _ & Hs).
  rewrite Hcycle in Hr, Hl, Hs. cbn [fst snd] in Hr, Hl, Hs.
  assert (run (Cycle b :: rest) m = run rest m2) as Hstep.
  { cbn [run]. by rewrite Hrun, Hcycle. }
  assert (running m2 = true) as Hrun2 by (cbn; congruence).
  split; [done|]. split; [done|].
  split; [cbn; by rewrite Hl|]. split; [cbn; by rewrite Hs|]. split.
  - intros b' rest' m3 -> Hnext. rewrite Hstep. cbn [run].
    by rewrite Hrun2, Hnext.
  - intros Hrest. rewrite Hstep.
    destruct (run_keeps_running rest m2 Hrest Hrun2) as [-> ->].
    split; [done|]. cbn [m2 on_exception slept with_slept with_log].
    rewrite length_app, Hs. cbn. lia.
Qed.

End QueueLengthMonitorFacts.

(** ** [get_exception_class]: further properties *)

Section ExceptionClassMore.

Lemma contains_app c s1 s2 :
  contains c (s1 +:+ s2) = contains c s1 || contains c s2.
Proof.
  induction s1 as [|c1 s1 IH]; [done|].
  change (String c1 s1 +:+ s2) with (String c1 (s1 +:+ s2)).
  cbn [contains]. by rewrite IH, orb_assoc.
Qed.

Lemma all_word_no_paren s : all_word s = true → contains "(" s = false.
Proof.
  induction s as [|c s IH]; [done|]. cbn [all_word contains].
  intros [Hc Hs]%andb_true_iff. rewrite IH by done.
  destruct (Ascii.eqb_spec c "("); [by subst|done].
Qed.

Lemma is_identifier_all_word s : is_identifier s = true → all_word s = true.
Proof. by destruct s. Qed.

(** The text before the first occurrence of a character is determined. *)
Lemma first_occurrence_unique c s1 s2 rest1 rest2 :
  contains c s1 = false → contains c s2 = false →
  s1 +:+ String c rest1 = s2 +:+ String c rest2 → s1 = s2.
Proof.
  revert s2. induction s1 as [|c1 s1 IH]; intros [|c2 s2]; cbn [contains]; try done.
  - intros _ [Hne _]%orb_false_iff [= <- _]. by rewrite Ascii.eqb_refl in Hne.
  - intros [Hne _]%orb_false_iff _ [= -> _]. by rewrite Ascii.eqb_refl in Hne.
  - intros [_ H1]%orb_false_iff [_ H2]%orb_false_iff [= -> Heq].
    f_equal. by apply IH.
Qed.

(** X7: whatever the string, the label [get_exception_class] returns is
    a non-empty run of word characters (the sentinel is one too). *)
Theorem exception_label_is_word (s : string) :
  ∃ cls, get_exception_class (Some s) = Ok cls ∧ is_identifier cls = true.
Proof.
  unfold get_exception_class.
  destruct (exception_pattern_match s) as [g|] eqn:Hmatch.
  - exists g. split; [done|]. by apply exception_pattern_match_sound in Hmatch as [? _].
  - by exists sentinel.
Qed.

(** X8: only the text before the first opening parenthesis counts.  A
    string without parenthesis gives the sentinel; a string with one gives
    the text before the first of them when that text is an identifier, and
    the sentinel when it is not, whatever follows. *)
Theorem exception_class_decided_before_paren (s : string) :
  contains "(" s = false →
  get_exception_class (Some s) = Ok sentinel
  ∧ ∀ rest,
      get_exception_class (Some (s +:+ "(" +:+ rest))
      = Ok (if is_identifier s then s else sentinel).
Proof.
  intros Hs. split.
  - unfold get_exception_class.
    destruct (exception_pattern_match s) as [g|] eqn:Hmatch; [|done].
    apply exception_pattern_match_sound in Hmatch as [_ [rest ->]].
    rewrite contains_app in Hs. apply orb_false_iff in Hs as [_ Hs]. done.
  - intros rest. destruct (is_identifier s) eqn:Hid.
    + unfold get_exception_class. by rewrite exception_pattern_match_complete.
    + unfold get_exception_class.
      destruct (exception_pattern_match _) as [g|] eqn:Hmatch; [|done].
      apply exception_pattern_match_sound in Hmatch as [Hg [rest' Heq]].
      assert (s = g) as ->; [|congruence].
      apply (first_occurrence_unique "(" s g rest rest'); [done| |done].
      by apply all_word_no_paren, is_identifier_all_word.
Qed.

End ExceptionClassMore.

(** ** [QueueLengthMonitor]: further properties *)

Section QueueLengthMonitorMore.
Import QueueLengthMonitor.
Implicit Types (m : QueueLengthMonitor.t) (lengths : dict Z) (queue : string).

Lemma stopped_stays m : running m = false → stop m = m.
Proof. destruct m. cbn. by intros ->. Qed.

Lemma run_stopped ticks m : running m = false → run ticks m = m.
Proof.
  revert m. induction ticks as [|[|b] ticks IH]; intros m Hm; cbn [run].
  - done.
  - rewrite stopped_stays by done. by apply IH.
  - by rewrite Hm.
Qed.

(** X12: [stop] ends the loop at its next check: no cycle runs after it,
    so the gauge and the sleeps stay as they are; a cycle that had started
    when [stop] came is completed first. *)
Theorem stop_ends_the_loop ticks m :
  run (Stop :: ticks) m = stop m
  ∧ gauge (run (Stop :: ticks) m) = gauge m
  ∧ slept (run (Stop :: ticks) m) = slept m
  ∧ ∀ b, running m = true →
         run (Cycle b :: Stop :: ticks) m = run [Cycle b; Stop] m
         ∧ running (run (Cycle b :: Stop :: ticks) m) = false.
Proof.
  assert (∀ ticks m, run (Stop :: ticks) m = stop m) as Hstop.
  { intros ticks' m'. cbn [run]. by apply run_stopped. }
  split; [apply Hstop|]. rewrite Hstop. split; [done|]. split; [done|].
  intros b Hrun. cbn [run]. rewrite Hrun.
  destruct (cycle b m) as [m' [[]|ex]];
    rewrite !(run_stopped ticks) by done; done.
Qed.

Lemma tally_unacked_fails unacked lengths :
  Exists (λ task, ¬ decodes task) unacked →
  ∃ ex, tally_unacked unacked lengths = Raise ex.
Proof.
  intros Hbad. revert lengths.
  induction Hbad as [task rest Hbad|task rest _ IH]; intros lengths;
    cbn [tally_unacked].
  - destruct (final_field task) as [queue|ex] eqn:Hq; [|by exists ex].
    destruct Hbad. by exists queue.
  - destruct (final_field task) as [queue|ex]; [apply IH|by exists ex].
Qed.

(** X13: a cycle in which the broker cannot be reached, or one
    unacknowledged entry does not decode, publishes nothing: the monitor
    is exactly as before, raw lengths already read included, and the loop
    sleeps its one second. *)
Theorem failed_cycle_publishes_nothing b m :
  fails_early b →
  (∃ ex, cycle b m = (m, Raise ex))
  ∧ (running m = true →
     gauge (run [Cycle b] m) = gauge m ∧ slept (run [Cycle b] m) = slept m ++ [1]).
Proof.
  intros Hfails.
  assert (∃ ex, cycle b m = (m, Raise ex)) as [ex Hcycle].
  { destruct b as [ex|r]; [by exists ex|].
    destruct (tally_unacked_fails _ [] Hfails) as [ex Hex].
    exists ex. unfold cycle, bind, gets, lift. cbn [fst snd]. by rewrite Hex. }
  split; [by exists ex|]. intros Hrun. cbn [run]. by rewrite Hrun, Hcycle.
Qed.


Lemma tally_unacked_decodes unacked lengths :
  Forall decodes unacked → ∃ lengths', tally_unacked unacked lengths = Ok lengths'.
Proof.
  intros Hall. revert lengths.
  induction Hall as [|task rest [queue Hq] _ IH]; intros lengths;
    cbn [tally_unacked]; [by eauto|]. rewrite Hq. apply IH.
Qed.

(** X14: with a negative interval every cycle publishes its depths and
    then fails in [time.sleep]: the loop logs an error and sleeps one
    second instead. *)
Theorem negative_interval_still_publishes r m :
  interval m < 0 →
  Forall decodes (hvals_unacked r) →
  ∃ m',
    cycle (Reachable r) m = (m', Raise ValueError)
    ∧ (∀ queue,
         queue ∈ queues m ∨ 0 < unacked_count queue (hvals_unacked r) →
         published m' queue
         = Some (configured_times queue (queues m) * llen r queue
                 + unacked_count queue (hvals_unacked r)))
    ∧ slept m' = slept m
    ∧ (running m = true →
       run [Cycle (Reachable r)] m = on_exception m'
       ∧ slept (run [Cycle (Reachable r)] m) = slept m ++ [1]).
Proof.
  intros Hneg Hall.
  destruct (tally_unacked_decodes _ [] Hall) as [lengths Htally].
  pose proof (λ queue, tally_unacked_get _ _ _ queue Htally) as Hlengths.
  pose proof (λ queue, add_llens_get (llen r) (queues m) lengths queue) as Hadd.
  destruct (for_each_publish (add_llens (map (llen r) (queues m)) (queues m) lengths) m)
    as (m1 & Hloop & Hpub & Hq & Hi & Hr & Hl & Hs).
  { destruct (add_llens_get (llen r) (queues m) lengths "") as (_ & _ & Hnd).
    apply Hnd.
    destruct (tally_unacked_get _ _ _ "" Htally) as (_ & _ & Hnd0).
    apply Hnd0. constructor. }
  assert (cycle (Reachable r) m = (m1, Raise ValueError)) as Hcycle.
  { unfold cycle, bind, gets, lift. cbn [fst snd]. rewrite Htally, Hloop.
    unfold sleep. rewrite Hi.
    by destruct (Z.ltb_spec (interval m) 0) as [_|?]; [|lia]. }
  exists m1. split; [done|]. split; [|split; [done|]].
  - intros queue Hqueue. rewrite Hpub.
    destruct (Hlengths queue) as (Hv1 & Hs1 & _).
    destruct (Hadd queue) as (Hv2 & Hs2 & _).
    cbn [dict_get default] in Hv1, Hs1.
    destruct (dict_get queue (add_llens _ _ _)) as [length|] eqn:Hget.
    + f_equal. simpl in Hv2. lia.
    + exfalso. destruct Hs2 as [_ Hs2]. destruct Hs2 as [? [=]].
      destruct Hqueue as [?|?]; [by left|]. right. apply Hs1. by left.
  - intros Hrun. cbn [run]. rewrite Hrun, Hcycle. split; [done|].
    cbn. by rewrite Hs.
Qed.

(** X15: the queue-length thread is started unless the interval is
    absent or 0; it starts running, with the given interval, on the given
    queues, and on the queue "celery" when none is given: its first
    successful cycle then publishes the depth of "celery". *)
Theorem queuelength_thread_defaults (queue_length_interval : option Z)
    (queue : list string) (gauge0 : series Z) :
  (Startup.queuelength_thread queue_length_interval queue gauge0 = None
   ↔ queue_length_interval = None ∨ queue_length_interval = Some 0)
  ∧ ∀ m,
      Startup.queuelength_thread queue_length_interval queue gauge0 = Some m →
      running m = true
      ∧ queue_length_interval = Some (interval m)
      ∧ (queue ≠ [] → queues m = queue)
      ∧ (queue = [] →
         ∀ r m', cycle (Reachable r) m = (m', Ok tt) →
           published m' "celery"
           = Some (llen r "celery" + unacked_count "celery" (hvals_unacked r))).
Proof.
  unfold Startup.queuelength_thread. split.
  - destruct queue_length_interval as [n|]; [|naive_solver].
    destruct (Z.eqb_spec n 0) as [->|Hne]; [naive_solver|].
    split; [done|]. intros [[=]|[=]]. done.
  - intros m. destruct queue_length_interval as [n|]; [|done].
    destruct (n =? 0); [done|]. intros [= <-]. cbn [running interval queues].
    split; [done|]. split; [done|]. split; [by destruct queue|].
    intros -> r m' Hcycle.
    destruct (cycle_returns _ _ _ Hcycle) as (Hpub & _).
    rewrite Hpub. cbn [queues]. rewrite decide_True by (left; by constructor).
    rewrite (configured_times_once "celery" ["celery"]);
      [f_equal; lia|apply NoDup_singleton|by constructor].
Qed.

End QueueLengthMonitorMore.

(** ** Start-up: properties *)

Section StartupFacts.
Import Startup.


Lemma partition_eq_none s :
  contains "=" s = false → partition_eq s = (s, None).
Proof.
  induction s as [|c s IH]; [done|]. cbn [contains partition_eq].
  intros [-> Hs]%orb_false_iff. by rewrite IH.
Qed.

Lemma partition_eq_first key value :
  contains "=" key = false →
  partition_eq (key +:+ "=" +:+ value) = (key, Some value).
Proof.
  induction key as [|c key IH]; [done|].
  change (String c key +:+ "=" +:+ value) with (String c (key +:+ "=" +:+ value)).
  cbn [contains partition_eq]. intros [-> Hs]%orb_false_iff. by rewrite IH.
Qed.

Lemma int_digits_raises acc s e : int_digits acc s = Raise e → e = ValueError.
Proof.
  revert acc. induction s as [|c s IH]; intros acc; cbn [int_digits]; [done|].
  destruct (is_decimal c); [apply IH|by intros [= <-]].
Qed.

Lemma set_transport_option_raises transport_option transport_options e :
  set_transport_option transport_option transport_options = Raise e → e = ValueError.
Proof.
  unfold set_transport_option. destruct transport_option as [s|]; [|done].
  destruct (split_eq s) as [|option [|value [|??]]]; try by intros [= <-].
  destruct (isnumeric value); [|done].
  destruct (int_of_numeric value) as [n|e'] eqn:Hint; [done|]. intros [= <-].
  unfold int_of_numeric in Hint. destruct value; [by injection Hint|].
  by apply int_digits_raises in Hint.
Qed.

(** X16: one transport option without ["="] makes the whole parsing
    raise [ValueError], wherever it stands in the list. *)
Theorem transport_option_without_eq_raises broker_transport_option s transport_options :
  Some s ∈ broker_transport_option →
  contains "=" s = false →
  set_transport_options broker_transport_option transport_options = Raise ValueError.
Proof.
  intros Hin Hs. revert transport_options.
  induction broker_transport_option as [|o rest IH]; intros transport_options;
    [by apply elem_of_nil in Hin|].
  cbn [set_transport_options].
  destruct (set_transport_option o transport_options) as [d|e] eqn:Ho.
  - apply elem_of_cons in Hin as [<-|Hin]; [|by apply IH].
    unfold set_transport_option, split_eq in Ho.
    by rewrite partition_eq_none in Ho.
  - by apply set_transport_option_raises in Ho as ->.
Qed.

Lemma set_transport_options_app opts1 opts2 transport_options :
  set_transport_options (opts1 ++ opts2) transport_options
  = match set_transport_options opts1 transport_options with
    | Ok d => set_transport_options opts2 d
    | Raise e => Raise e
    end.
Proof.
  revert transport_options. induction opts1 as [|o opts1 IH]; intros d; [done|].
  cbn [app set_transport_options]. by destruct (set_transport_option o d).
Qed.

(** X17: an option is split at its first ["="]; a value that is not
    numeric (empty, signed, with a decimal point, with another ["="]) is
    stored as it is, replacing an earlier value of the same key and
    leaving the other keys alone. *)
Theorem transport_option_kept_verbatim broker_transport_option d key value :
  broker_transport_options broker_transport_option = Ok d →
  contains "=" key = false →
  isnumeric value = false →
  ∃ d',
    broker_transport_options (broker_transport_option ++ [Some (key +:+ "=" +:+ value)])
    = Ok d'
    ∧ dict_get key d' = Some (StrValue value)
    ∧ ∀ option, option ≠ key → dict_get option d' = dict_get option d.
Proof.
  unfold broker_transport_options. intros Hd Hkey Hvalue.
  exists (dict_set key (StrValue value) d).
  rewrite set_transport_options_app, Hd. cbn [set_transport_options].
  unfold set_transport_option, split_eq. rewrite partition_eq_first by done.
  rewrite Hvalue. split; [done|]. split.
  - rewrite dict_get_set. by rewrite decide_True.
  - intros option Hne. rewrite dict_get_set. by rewrite decide_False.
Qed.








Lemma int_digits_non_decimal acc s :
  has_non_decimal s = true → int_digits acc s = Raise ValueError.
Proof.
  revert acc. induction s as [|c s IH]; intros acc; [done|].
  cbn [has_non_decimal int_digits].
  destruct (is_decimal c); [apply IH|done].
Qed.

(** X19: a value that [isnumeric] accepts but that is not made of decimal
    digits only (a superscript digit, a vulgar fraction) makes the parsing
    raise [ValueError]. *)
Theorem transport_option_numeric_not_decimal_raises key value d :
  contains "=" key = false →
  isnumeric value = true →
  has_non_decimal value = true →
  set_transport_option (Some (key +:+ "=" +:+ value)) d = Raise ValueError.
Proof.
  intros Hkey Hnum Hnon. unfold set_transport_option, split_eq.
  rewrite partition_eq_first by done. rewrite Hnum.
  unfold int_of_numeric. destruct value; [done|].
  by rewrite int_digits_non_decimal.
Qed.

End StartupFacts.

(** ** The properties at concrete inputs *)

Import Examples.







Lemma sampler_survives_exceptions_witness :
  let m := monitor ["a"] in
  let ticks := [QueueLengthMonitor.Cycle (QueueLengthMonitor.Unreachable ConnectionError);
                QueueLengthMonitor.Cycle (QueueLengthMonitor.Reachable redis)] in
  let m' := QueueLengthMonitor.run ticks m in
  QueueLengthMonitor.running m' = true
  ∧ QueueLengthMonitor.slept m' = [1; 30]
  ∧ published m' "a" = Some 5.
Proof.
  intros m ticks m'.
  assert (QueueLengthMonitor.running m = true) as Hrun by reflexivity.
  assert (QueueLengthMonitor.cycle (QueueLengthMonitor.Unreachable ConnectionError) m
          = (m, Raise ConnectionError)) as Hcycle by reflexivity.
  destruct (sampler_survives_exceptions
              (QueueLengthMonitor.Unreachable ConnectionError)
              [QueueLengthMonitor.Cycle (QueueLengthMonitor.Reachable redis)]
              m m ConnectionError Hrun Hcycle) as (Hstep & _).
  unfold m', ticks. rewrite Hstep.
  repeat split; vm_compute; reflexivity.
Defined.

Lemma worker_status_sets_gauge_witness :
  let e1 := (Exporter.process worker_online now exporter).1 in
  value_of (Exporter.celery_worker_up e1) ["worker1"] = 1
  ∧ Exporter.celery_worker_up (process_times 3 worker_online now exporter)
    = Exporter.celery_worker_up e1.
Proof.
  intros e1.
  assert (Event.type worker_online = (if true then "worker-online" else "worker-offline"))
    as Hty by reflexivity.
  destruct (worker_status_sets_gauge worker_online now exporter true Hty)
    as (_ & _ & Hvalue & Hrepeat & _).
  split; [exact Hvalue|]. apply Hrepeat. lia.
Defined.

Lemma queuetime_zero_sent_counterexample :
  let e' := (Exporter.track_task_event task_started_zero now exporter).1 in
  Event.type task_started_zero = "task-started"
  ∧ tasks_get (state_event (Exporter.state exporter) task_started_zero).1
      (Event.uuid task_started_zero) = Some zero_sent_task
  ∧ Task.sent zero_sent_task = Some 0%float
  ∧ (Exporter.track_task_event task_started_zero now exporter).2 = Ok tt
  ∧ Exporter.celery_task_queuetime e' !! ["tasks.add"; "worker1"] = None
  ∧ Exporter.celery_task_queuetime e' !! ["tasks.add"; "worker1"]
    ≠ Some [PrimFloat.sub now 0].
Proof.
  cbv zeta. repeat split; try (vm_compute; reflexivity).
  vm_compute. discriminate.
Qed.

Lemma queuetime_observed_iff_sent_truthy_witness :
  Exporter.celery_task_queuetime
    (Exporter.track_task_event task_started now exporter).1
  !! ["tasks.add"; "worker1"] = Some [2.25%float]
  ∧ Exporter.celery_task_queuetime
      (Exporter.track_task_event task_failed now exporter).1 = ∅.
Proof.
  assert (tasks_get (state_event (Exporter.state exporter) task_started).1
            (Event.uuid task_started) = Some sent_task) as Hget
    by (vm_compute; reflexivity).
  destruct (queuetime_observed_iff_sent_truthy task_started now exporter sent_task Hget)
    as [Hobserved _].
  assert (tasks_get (state_event (Exporter.state exporter) task_failed).1
            (Event.uuid task_failed) = Some failed_task) as Hget'
    by (vm_compute; reflexivity).
  destruct (queuetime_observed_iff_sent_truthy task_failed now exporter failed_task Hget')
    as [_ Hnone].
  split.
  - rewrite (Hobserved 1700000000.25%float);
      first [reflexivity | vm_compute; reflexivity].
  - rewrite Hnone; [reflexivity|]. left. discriminate.
Defined.

Lemma counters_never_decrease_witness :
  let e1 := (Exporter.process task_failed now exporter).1 in
  let e2 := (Exporter.process task_started now e1).1 in
  counter_value exporter "task-failed" ["tasks.add"; "worker1"; "ValueError"]
  ≤ counter_value e2 "task-failed" ["tasks.add"; "worker1"; "ValueError"]
  ∧ counter_value e1 "task-failed" ["tasks.add"; "worker1"; "ValueError"] = 1
  ∧ counter_value e2 "task-failed" ["tasks.add"; "worker1"; "ValueError"] = 1.
Proof.
  intros e1 e2.
  assert (rtc exporter_step exporter e2) as Hsteps.
  { eapply rtc_l; [apply (step_process task_failed now)|].
    eapply rtc_l; [apply (step_process task_started now)|]. apply rtc_refl. }
  destruct (counters_never_decrease exporter e2 Hsteps
              "task-failed" ["tasks.add"; "worker1"; "ValueError"]) as [Hle _].
  split; [exact Hle|]. split; vm_compute; reflexivity.
Defined.

Lemma queuetime_gate_is_truthiness_witness :
  Exporter.celery_task_queuetime
    (Exporter.track_task_event task_started_zero now exporter).1 = ∅.
Proof.
  rewrite (queuetime_gate_is_truthiness task_started_zero now exporter zero_sent_task).
  - reflexivity.
  - reflexivity.
  - vm_compute. reflexivity.
  - right. reflexivity.
Defined.

(** ** The further properties at concrete inputs *)

Lemma heartbeat_sets_gauges_witness :
  let e' := (Exporter.process MoreExamples.worker_heartbeat now MoreExamples.exporter).1 in
  value_of (Exporter.celery_worker_up e') ["worker1"] = 1
  ∧ value_of (Exporter.worker_tasks_active e') ["worker1"] = 4.
Proof.
  intros e'.
  destruct (heartbeat_sets_gauges MoreExamples.worker_heartbeat now MoreExamples.exporter
              (state_event (Exporter.state MoreExamples.exporter)
                 MoreExamples.worker_heartbeat).1
              MoreExamples.busy_worker)
    as (_ & Hup & Hactive & _).
  - reflexivity.
  - vm_compute. reflexivity.
  - unfold e'. rewrite Hup, Hactive. split; vm_compute; reflexivity.
Defined.

Lemma runtime_observed_on_success_witness :
  Exporter.celery_task_runtime
    (Exporter.track_task_event MoreExamples.task_succeeded now MoreExamples.exporter).1
  !! ["tasks.add"; "worker1"] = Some [0.5%float]
  ∧ Exporter.celery_task_runtime
      (Exporter.track_task_event task_failed now MoreExamples.exporter).1 = ∅.
Proof.
  destruct (runtime_observed_on_success MoreExamples.task_succeeded now
              MoreExamples.exporter MoreExamples.succeeded_task) as [Hobserved _];
    [vm_compute; reflexivity|].
  destruct (Hobserved 0.5%float) as [_ Hruntime]; [reflexivity..|].
  destruct (runtime_observed_on_success task_failed now
              MoreExamples.exporter failed_task) as [_ Hother];
    [vm_compute; reflexivity|].
  split.
  - rewrite Hruntime. vm_compute. reflexivity.
  - rewrite Hother; [reflexivity|discriminate].
Defined.

Lemma failure_without_exception_not_counted_witness :
  let r := Exporter.track_task_event MoreExamples.task_failed_silently now
             MoreExamples.exporter in
  r.2 = Raise TypeError
  ∧ counter_value r.1 "task-failed" ["tasks.add"; "worker1"; ""] = 0
  ∧ counter_exposed r.1 "task-sent" ["tasks.add"; "worker1"]
  ∧ Exporter.state_counter_values r.1 !! ("task-retried", ["tasks.add"; "worker1"]) = None.
Proof.
  intros r.
  destruct (failure_without_exception_not_counted MoreExamples.task_failed_silently
              now MoreExamples.exporter MoreExamples.silent_task)
    as (Hraise & Hvalue & Hexposed & Huntouched).
  - reflexivity.
  - vm_compute. reflexivity.
  - reflexivity.
  - split; [exact Hraise|]. split; [|split].
    + unfold r. rewrite Hvalue. vm_compute. reflexivity.
    + apply (Hexposed "task-sent"). apply (bool_decide_unpack _). vm_compute. exact I.
    + unfold r. rewrite (Huntouched "task-retried").
      * vm_compute. reflexivity.
      * apply (bool_decide_unpack _). vm_compute. exact I.
Defined.

Lemma duplicate_delivery_counted_twice_witness :
  let e1 := (Exporter.track_task_event task_failed now exporter).1 in
  let e2 := (Exporter.track_task_event task_failed now e1).1 in
  counter_value e2 "task-failed" ["tasks.add"; "worker1"; "ValueError"] = 2.
Proof.
  intros e1 e2.
  assert (Event.type task_failed ∈ state_counters.*1) as Hty
    by (apply (bool_decide_unpack _); vm_compute; exact I).
  assert (tasks_get (state_event (Exporter.state exporter) task_failed).1
            (Event.uuid task_failed) = Some failed_task) as Hget
    by (vm_compute; reflexivity).
  assert (tasks_get (state_event (Exporter.state e1) task_failed).1
            (Event.uuid task_failed) = Some failed_task) as Hget'
    by (vm_compute; reflexivity).
  assert (Event.type task_failed = "task-failed" →
          get_exception_class (Task.exception failed_task) = Ok "ValueError"
          ∧ get_exception_class (Task.exception failed_task) = Ok "ValueError") as Hcls
    by (intros _; split; vm_compute; reflexivity).
  etrans;
    [exact (duplicate_delivery_counted_twice task_failed now now exporter
              failed_task failed_task "ValueError" Hty Hget Hget' eq_refl eq_refl Hcls)|].
  vm_compute. reflexivity.
Defined.

Lemma handlers_write_their_own_metrics_witness :
  gauges (Exporter.process task_failed now MoreExamples.exporter).1
  = gauges MoreExamples.exporter
  ∧ task_metrics (Exporter.process MoreExamples.worker_heartbeat now
                    MoreExamples.exporter).1
    = task_metrics MoreExamples.exporter.
Proof.
  destruct (handlers_write_their_own_metrics task_failed now MoreExamples.exporter)
    as (_ & _ & _ & Htask & _).
  destruct (handlers_write_their_own_metrics MoreExamples.worker_heartbeat now
              MoreExamples.exporter) as (_ & _ & _ & _ & Hworker).
  split.
  - apply Htask. apply (bool_decide_unpack _). vm_compute. exact I.
  - apply Hworker. apply (bool_decide_unpack _). vm_compute. exact I.
Defined.

Lemma missing_task_raises_witness :
  Exporter.track_task_event task_failed now MoreExamples.forgetful_exporter
  = (MoreExamples.forgetful_exporter, Raise AttributeError).
Proof.
  rewrite (missing_task_raises task_failed now MoreExamples.forgetful_exporter);
    reflexivity.
Defined.

Lemma exception_class_decided_before_paren_witness :
  get_exception_class (Some "KeyError('a(b)')") = Ok "KeyError"
  ∧ get_exception_class (Some "Key Error('a')") = Ok sentinel
  ∧ get_exception_class (Some "KeyError") = Ok sentinel.
Proof.
  destruct (exception_class_decided_before_paren "KeyError") as [Hnone Hsome];
    [reflexivity|].
  destruct (exception_class_decided_before_paren "Key Error") as [_ Hbad];
    [reflexivity|].
  split; [exact (Hsome "'a(b)')")|]. split; [exact (Hbad "'a')")|exact Hnone].
Defined.


Lemma negative_retry_interval_raises_witness :
  (Exporter.run (-1) [broker_down; interrupted] exporter []).2
  = Exporter.Propagates (Exc ValueError).
Proof.
  destruct (negative_retry_interval_raises (-1) broker_down [interrupted] exporter [])
    as [Hend _].
  - lia.
  - split; discriminate.
  - exact Hend.
Defined.

Lemma failed_receives_keep_metrics_witness :
  let e' := (Exporter.run 5 [broker_down; broker_down] MoreExamples.exporter []).1.1 in
  task_metrics e' = task_metrics MoreExamples.exporter
  ∧ gauges e' = gauges MoreExamples.exporter.
Proof.
  intros e'.
  destruct (failed_receives_keep_metrics 5 [broker_down; broker_down]
              MoreExamples.exporter []) as (_ & Htask & Hgauges).
  - repeat constructor.
  - by split.
Defined.

Lemma stop_ends_the_loop_witness :
  let m := monitor ["a"] in
  let ticks := [QueueLengthMonitor.Cycle (QueueLengthMonitor.Reachable redis);
                QueueLengthMonitor.Stop;
                QueueLengthMonitor.Cycle (QueueLengthMonitor.Reachable redis)] in
  QueueLengthMonitor.running (QueueLengthMonitor.run ticks m) = false
  ∧ QueueLengthMonitor.slept (QueueLengthMonitor.run ticks m) = [30].
Proof.
  intros m ticks.
  destruct (stop_ends_the_loop
              [QueueLengthMonitor.Cycle (QueueLengthMonitor.Reachable redis)] m)
    as (_ & _ & _ & Hcycle).
  destruct (Hcycle (QueueLengthMonitor.Reachable redis)) as [Hrun Hstopped];
    [reflexivity|].
  split; [exact Hstopped|]. unfold ticks. rewrite Hrun. vm_compute. reflexivity.
Defined.

Lemma failed_cycle_publishes_nothing_witness :
  let m := monitor ["a"] in
  let b := QueueLengthMonitor.Reachable MoreExamples.redis_garbled in
  QueueLengthMonitor.gauge (QueueLengthMonitor.run [QueueLengthMonitor.Cycle b] m) = ∅
  ∧ QueueLengthMonitor.slept (QueueLengthMonitor.run [QueueLengthMonitor.Cycle b] m) = [1].
Proof.
  intros m b.
  destruct (failed_cycle_publishes_nothing b m) as [_ Hrun].
  - apply Exists_cons_tl, Exists_cons_hd. intros [queue Hq]. discriminate Hq.
  - apply Hrun. reflexivity.
Defined.

Lemma negative_interval_still_publishes_witness :
  let m' := QueueLengthMonitor.run
              [QueueLengthMonitor.Cycle (QueueLengthMonitor.Reachable redis)]
              MoreExamples.hasty_monitor in
  published m' "a" = Some 5 ∧ QueueLengthMonitor.slept m' = [1].
Proof.
  intros m'.
  destruct (negative_interval_still_publishes redis MoreExamples.hasty_monitor)
    as (m1 & Hcycle & Hpub & Hslept & Hrun).
  - reflexivity.
  - repeat constructor; by eexists.
  - destruct Hrun as [Hrun Hslept']; [reflexivity|].
    split; [|exact Hslept'].
    unfold m'. rewrite Hrun. unfold published. cbn.
    change (QueueLengthMonitor.gauge m1 !! ["a"]) with (published m1 "a").
    rewrite Hpub.
    + vm_compute. reflexivity.
    + left. apply (bool_decide_unpack _). vm_compute. exact I.
Defined.

Lemma queuelength_thread_defaults_witness :
  Startup.queuelength_thread (Some 0) ["a"] ∅ = None
  ∧ ∃ m, Startup.queuelength_thread (Some 30) [] ∅ = Some m
         ∧ QueueLengthMonitor.running m = true
         ∧ published
             (QueueLengthMonitor.cycle (QueueLengthMonitor.Reachable redis) m).1
             "celery" = Some 0.
Proof.
  destruct (queuelength_thread_defaults (Some 0) ["a"] ∅) as [[_ Hnone] _].
  split; [apply Hnone; by right|].
  destruct (queuelength_thread_defaults (Some 30) [] ∅) as [_ Hsome].
  eexists. split; [reflexivity|].
  destruct (Hsome _ eq_refl) as (Hrun & _ & _ & Hcelery).
  split; [exact Hrun|].
  match goal with
  | |- published (QueueLengthMonitor.cycle ?b ?m).1 _ = _ =>
      assert (QueueLengthMonitor.cycle b m = ((QueueLengthMonitor.cycle b m).1, Ok tt))
        as Hcycle by (vm_compute; reflexivity)
  end.
  etrans; [exact (Hcelery eq_refl redis _ Hcycle)|]. vm_compute. reflexivity.
Defined.

Lemma transport_option_without_eq_raises_witness :
  Startup.broker_transport_options [Some "visibility_timeout=18000"; Some "fanout_prefix"]
  = Raise ValueError.
Proof.
  apply (transport_option_without_eq_raises _ "fanout_prefix").
  - apply (bool_decide_unpack _). vm_compute. exact I.
  - reflexivity.
Defined.

Lemma transport_option_kept_verbatim_witness :
  ∃ d, Startup.broker_transport_options
         [Some "master_name=a"; Some "master_name=mymaster=1"] = Ok d
       ∧ dict_get "master_name" d = Some (Startup.StrValue "mymaster=1").
Proof.
  destruct (transport_option_kept_verbatim [Some "master_name=a"]
              [("master_name", Startup.StrValue "a")] "master_name" "mymaster=1")
    as (d & Hd & Hget & _); [reflexivity..|].
  exists d. split; [exact Hd|exact Hget].
Defined.


Lemma transport_option_numeric_not_decimal_raises_witness :
  Startup.set_transport_option (Some ("retries=" +:+ String (ascii_of_nat 178) "")) []
  = Raise ValueError.
Proof.
  apply (transport_option_numeric_not_decimal_raises "retries"); reflexivity.
Defined.
